(** * pgee: PostgreSQL LISTEN/NOTIFY as an event emitter

    A shallow embedding of [lib/index.js].  The JavaScript object [PgEe]
    becomes a record, its methods become computations in a small monad
    that threads the instance ([this]), collects the observable effects
    (database commands, user functions applied, events fired) and
    carries JavaScript exceptions.  Every asynchronous callback that the
    source hands to the driver is a named continuation, so that the
    interleavings of a single-threaded event loop can be replayed. *)

From stdpp Require Import strings list.
From Stdlib Require Import ZArith Lia.

Local Open Scope Z_scope.
Set Warnings "-register-all".

(** ** JavaScript values *)

Module Js.

Definition fn := nat.

(** The values the library inspects.  Numbers are the integer-valued
    ones; functions are opaque and identified by a name.  Values on which
    string coercion or JSON encoding throw (symbols, BigInts, cyclic
    objects) are not represented, and user functions are taken to return
    normally when applied.  The coercion of an object to a string and the
    JSON codec run user code or host code; they are hooks of the model
    (see below), total on the values represented here. *)
Inductive value : Type :=
| VUndefined
| VNull
| VBool (b : bool)
| VNum (z : Z)
| VStr (s : string)
| VFun (f : fn)
| VObj (props : list (string * value))
| VError (msg : string).

Inductive jstype : Type :=
| TUndefined | TObject | TBoolean | TNumber | TString | TFunction.

Definition typeof (v : value) : jstype :=
  match v with
  | VUndefined => TUndefined
  | VNull => TObject
  | VBool _ => TBoolean
  | VNum _ => TNumber
  | VStr _ => TString
  | VFun _ => TFunction
  | VObj _ => TObject
  | VError _ => TObject
  end.

Definition is_null (v : value) : bool :=
  match v with VNull => true | _ => false end.

(** [typeof v === 'function'] and [typeof v === 'object']. *)
Definition is_function (v : value) : bool :=
  match typeof v with TFunction => true | _ => false end.

Definition is_object (v : value) : bool :=
  match typeof v with TObject => true | _ => false end.

(** [v === s] for a string literal [s]. *)
Definition is_str (s : string) (v : value) : bool :=
  match v with VStr t => String.eqb t s | _ => false end.

(** ToBoolean, as used by [if (err)] and [!!x]. *)
Definition truthy (v : value) : bool :=
  match v with
  | VUndefined | VNull => false
  | VBool b => b
  | VNum z => negb (z =? 0)
  | VStr s => negb (String.eqb s EmptyString)
  | VFun _ | VObj _ | VError _ => true
  end.

Fixpoint assoc (k : string) (props : list (string * value)) : value :=
  match props with
  | [] => VUndefined
  | (k', v) :: rest => if String.eqb k' k then v else assoc k rest
  end.

(** Property read [o.k] on an object. *)
Definition prop (o : value) (k : string) : value :=
  match o with
  | VObj props => assoc k props
  | VError msg => if String.eqb k "message" then VStr msg else VUndefined
  | _ => VUndefined
  end.

End Js.
Export Js.

(** ** Arrays of strings: [indexOf], [push], [splice(i, 1)] *)

Fixpoint indexOf (l : list string) (x : string) : Z :=
  match l with
  | [] => -1
  | y :: l' =>
      if String.eqb y x then 0
      else let i := indexOf l' x in if i =? -1 then -1 else i + 1
  end.

Definition push (l : list string) (x : string) : list string := l ++ [x].

Definition splice1 (l : list string) (index : Z) : list string :=
  delete (Z.to_nat index) l.

(** How often a channel name occurs in the registry. *)
Definition occurrences (c : string) (l : list string) : nat :=
  count_occ String.string_dec l c.

(** ** The instance, effects and continuations *)

Definition conn := nat.

Inductive handler : Type := OnError | OnNotification.

(** The callbacks that the source passes to [connection.query]. *)
Inductive cont : Type :=
| KListen (channel : string) (listener callback : value)
| KUnlisten (channel : string) (removeListeners : bool) (callback : value)
| KEmit.

Inductive effect : Type :=
| Query (c : conn) (sql : string) (params : option (list value)) (k : cont)
| PoolConnect (options : value) (callback : value)
| Call (f : fn) (args : list value)
| Emitted (event : string) (args : list value)
| ConnOn (c : conn) (h : handler)
| ConnOff (c : conn) (h : handler).

Record PgEe : Type := mkPgEe {
  _channels : list string;
  _done : value;
  _options : value;
  _connection : option conn;
  _tearDownConnection : option conn;
  _events : list (string * list fn)
}.

Record Notification : Type := mkNotification {
  n_channel : string;
  n_payload : string
}.

(** ** The monad of method bodies *)

Inductive completion (A : Type) : Type :=
| Normal (a : A)
| Throw (e : value).
Arguments Normal {A} a.
Arguments Throw {A} e.

Record Run (A : Type) : Type := mkRun {
  outcome : completion A;
  after : PgEe;
  trace : list effect
}.
Arguments mkRun {A} _ _ _.
Arguments outcome {A} _.
Arguments after {A} _.
Arguments trace {A} _.

Definition M (A : Type) : Type := PgEe -> Run A.

Definition ret {A} (a : A) : M A := fun this => mkRun (Normal a) this [].

Definition throw {A} (e : value) : M A := fun this => mkRun (Throw e) this [].

Definition bind {A B} (m : M A) (f : A -> M B) : M B :=
  fun this =>
    let r := m this in
    match outcome r with
    | Normal a =>
        let r' := f a (after r) in
        mkRun (outcome r') (after r') (trace r ++ trace r')
    | Throw e => mkRun (Throw e) (after r) (trace r)
    end.

Definition get : M PgEe := fun this => mkRun (Normal this) this [].

Definition modify (f : PgEe -> PgEe) : M unit :=
  fun this => mkRun (Normal tt) (f this) [].

Definition tell (es : list effect) : M unit :=
  fun this => mkRun (Normal tt) this es.

(** [try { body } finally { fin }]: the finaliser always runs, and sees
    how the body completed; an exception of the body is still pending
    afterwards unless the finaliser throws itself. *)
Definition try_finally {A} (body : M A) (fin : completion A -> M unit) : M A :=
  fun this =>
    let r := body this in
    let r' := fin (outcome r) (after r) in
    match outcome r' with
    | Normal _ => mkRun (outcome r) (after r') (trace r ++ trace r')
    | Throw e => mkRun (Throw e) (after r') (trace r ++ trace r')
    end.

Declare Scope js_scope.
Delimit Scope js_scope with js.
Notation "x <- m ;; k" := (bind m (fun x => k))
  (at level 100, m at next level, right associativity) : js_scope.
Notation "m ;; k" := (bind m (fun _ => k))
  (at level 100, right associativity) : js_scope.
Local Open Scope js_scope.

(** ** Node's EventEmitter, the part [index.js] calls

    [PgEe] inherits from [EventEmitter] (index.js:26) and never runs its
    constructor, so the listener table starts out absent and its entries
    are created and deleted as ordinary properties.  The table maps an
    event name to its listeners in registration order; an event without
    listeners has no entry.  User listeners are opaque: applying one is
    recorded as a [Call]. *)

Fixpoint lookup_event (event : string) (t : list (string * list fn)) : list fn :=
  match t with
  | [] => []
  | (k, ls) :: t' => if String.eqb k event then ls else lookup_event event t'
  end.

(** [events[event] = ls]: in place for an existing entry, else a new entry
    behind the others. *)
Fixpoint replace_event (event : string) (ls : list fn)
    (t : list (string * list fn)) : list (string * list fn) :=
  match t with
  | [] => [(event, ls)]
  | (k, ls') :: t' =>
      if String.eqb k event then (k, ls) :: t'
      else (k, ls') :: replace_event event ls t'
  end.

(** [delete events[event]] *)
Fixpoint delete_event (event : string) (t : list (string * list fn))
    : list (string * list fn) :=
  match t with
  | [] => []
  | (k, ls) :: t' =>
      if String.eqb k event then delete_event event t'
      else (k, ls) :: delete_event event t'
  end.

Definition store_event (event : string) (ls : list fn)
    (t : list (string * list fn)) : list (string * list fn) :=
  match ls with
  | [] => delete_event event t
  | _ => replace_event event ls t
  end.

(** The own keys of the table in the order [Object.keys] gives them:
    array-index names first, ascending, then the others in creation
    order. *)
Fixpoint decimal (s : string) (acc : N) : option N :=
  match s with
  | EmptyString => Some acc
  | String c s' =>
      let d := Ascii.N_of_ascii c in
      if ((48 <=? d) && (d <=? 57))%N then decimal s' (acc * 10 + (d - 48))%N
      else None
  end.

Definition array_index (s : string) : option N :=
  match s with
  | EmptyString => None
  | String c s' =>
      if (Ascii.N_of_ascii c =? 48)%N && negb (String.eqb s' EmptyString) then None
      else match decimal s 0%N with
           | Some n => if (n <? 4294967295)%N then Some n else None
           | None => None
           end
  end.

Fixpoint insert_index (n : N) (k : string) (l : list (N * string)) : list (N * string) :=
  match l with
  | [] => [(n, k)]
  | (m, k') :: l' =>
      if (n <? m)%N then (n, k) :: l else (m, k') :: insert_index n k l'
  end.

Fixpoint index_keys (t : list (string * list fn)) : list (N * string) :=
  match t with
  | [] => []
  | (k, _) :: t' =>
      match array_index k with
      | Some n => insert_index n k (index_keys t')
      | None => index_keys t'
      end
  end.

Fixpoint name_keys (t : list (string * list fn)) : list string :=
  match t with
  | [] => []
  | (k, _) :: t' =>
      match array_index k with
      | Some _ => name_keys t'
      | None => k :: name_keys t'
      end
  end.

Definition own_keys (t : list (string * list fn)) : list string :=
  map snd (index_keys t) ++ name_keys t.

Definition listeners (event : string) (this : PgEe) : list fn :=
  lookup_event event (_events this).

Definition listenerCount (event : string) (this : PgEe) : nat :=
  length (listeners event this).

Definition set_events (ev : list (string * list fn)) (this : PgEe) : PgEe :=
  mkPgEe (_channels this) (_done this) (_options this) (_connection this)
         (_tearDownConnection this) ev.

(** What an unhandled ['error'] event throws: the error itself, or a
    wrapper when the argument is not an Error. *)
Definition unhandled (er : value) : value :=
  match er with
  | VError _ => er
  | _ => VError "Unhandled error."
  end.

(** [EventEmitter.prototype.emit] *)
Definition EventEmitter_emit (event : string) (args : list value) : M bool :=
  this <- get ;;
  tell [Emitted event args] ;;
  match listeners event this with
  | [] =>
      if String.eqb event "error" then throw (unhandled (hd VUndefined args))
      else ret false
  | ls => tell (map (fun f => Call f args) ls) ;; ret true
  end.

(** [f.apply(this, args)] for a user function. *)
Definition apply (f : value) (args : list value) : M unit :=
  match f with
  | VFun g => tell [Call g args]
  | _ => throw (VError "not a function")
  end.

(** ** lib/index.js *)

Section PgEe.

(** Host hooks, opaque to the library: string coercion of the values
    that are not primitive, and the JSON codec.  [JSON_parse] answers
    [None] where the real one throws a SyntaxError.  [ToString] and
    [JSON_stringify] stand for coercions that complete; the properties
    that depend on their completing say on which arguments
    ([name_safe], [json_safe]). *)
Variable ToString : value -> string.
Variable JSON_stringify : value -> value.
Variable JSON_parse : string -> option value.

(** [v + ''] *)
Definition to_str (v : value) : string :=
  match v with
  | VUndefined => "undefined"
  | VNull => "null"
  | VBool true => "true"
  | VBool false => "false"
  | VStr s => s
  | _ => ToString v
  end.

Definition SyntaxError : value := VError "SyntaxError".
Definition not_connected : value := VError "not connected to database".

Definition dquote : string := String (Ascii.ascii_of_nat 34) EmptyString.
Definition LISTEN (channel : string) : string :=
  "LISTEN " +:+ dquote +:+ channel +:+ dquote.
Definition UNLISTEN (channel : string) : string :=
  "UNLISTEN " +:+ dquote +:+ channel +:+ dquote.
Definition pg_notify : string := "SELECT pg_notify($1, $2)".

Definition set_channels (l : list string) (this : PgEe) : PgEe :=
  mkPgEe l (_done this) (_options this) (_connection this)
         (_tearDownConnection this) (_events this).

(** index.js:200 *)
Definition _emit (event : string) (message : value) : M unit :=
  EventEmitter_emit event [message] ;; ret tt.

(** index.js:205.  [args] are the arguments after [event]. *)
Definition _callbackOrEmit (callback : value) (event : string)
    (args : list value) : M unit :=
  if is_function callback then apply callback args
  else (EventEmitter_emit event args ;; ret tt).

Definition query (sql : string) (params : option (list value)) (k : cont) : M unit :=
  this <- get ;;
  match _connection this with
  | Some c => tell [Query c sql params k]
  | None => throw (VError "Cannot read properties of null")
  end.

(** index.js:148, the callback given to [query] by [emit]. *)
Definition emit_cb (err : value) : M unit :=
  if truthy err then _emit "error" err else ret tt.

(** index.js:136, the public [emit]. *)
Definition emit (event message : value) : M unit :=
  if is_str "error" event then _emit "error" message
  else
    this <- get ;;
    match _connection this with
    | None => _emit "error" not_connected
    | Some _ =>
        let sql := pg_notify in
        let params := [event; JSON_stringify message] in
        query sql (Some params) KEmit
    end.

(** *** The emitter methods the instance inherits

    Node's [on] first announces the registration, and its
    [removeListener] announces each removal, by calling [this.emit] with
    ['newListener'] or ['removeListener'] whenever that event has a
    listener.  On a [PgEe] instance [this.emit] is the method of
    index.js:136, so the announcement becomes a [pg_notify] command, or
    the not-connected ['error'] event; the listeners of the meta-event
    are not applied. *)

Definition announce (name type : string) : M unit :=
  this <- get ;;
  match listeners name this with
  | [] => ret tt
  | _ => emit (VStr name) (VStr type)
  end.

Definition on (event : string) (listener : value) : M unit :=
  match listener with
  | VFun f =>
      announce "newListener" event ;;
      modify (fun this =>
        set_events (replace_event event (listeners event this ++ [f]) (_events this))
                   this)
  | _ => throw (VError "The listener argument must be of type function")
  end.

(** [removeListener(type, f)] for the listener registered last, which is
    how [removeAllListeners] calls it. *)
Definition removeListener_last (type : string) : M unit :=
  modify (fun this =>
    set_events (store_event type (removelast (listeners type this)) (_events this))
               this) ;;
  announce "removeListener" type.

Fixpoint remove_each (type : string) (n : nat) : M unit :=
  match n with
  | O => ret tt
  | S n' => removeListener_last type ;; remove_each type n'
  end.

(** [removeAllListeners(type)] *)
Definition removeAllListeners_of (type : string) : M unit :=
  this <- get ;;
  match listeners "removeListener" this with
  | [] =>
      match listeners type this with
      | [] => ret tt
      | _ => modify (fun this => set_events (delete_event type (_events this)) this)
      end
  | _ => remove_each type (length (listeners type this))
  end.

Fixpoint remove_keys (keys : list string) : M unit :=
  match keys with
  | [] => ret tt
  | key :: keys' =>
      (if String.eqb key "removeListener" then ret tt
       else removeAllListeners_of key) ;;
      remove_keys keys'
  end.

(** [removeAllListeners()] and [removeAllListeners(type)] *)
Definition removeAllListeners (event : option string) : M unit :=
  match event with
  | Some type => removeAllListeners_of type
  | None =>
      this <- get ;;
      match listeners "removeListener" this with
      | [] => modify (set_events [])
      | _ =>
          remove_keys (own_keys (_events this)) ;;
          removeAllListeners_of "removeListener" ;;
          modify (set_events [])
      end
  end.

(** index.js:173 *)
Definition _setupConnection : M unit :=
  this <- get ;;
  match _connection this with
  | Some connection =>
      tell [ConnOn connection OnError; ConnOn connection OnNotification] ;;
      modify (fun this =>
        mkPgEe (_channels this) (_done this) (_options this) (_connection this)
               (Some connection) (_events this))
  | None => throw (VError "Cannot read properties of null")
  end.

(** The closure stored by [_setupConnection] (index.js:193). *)
Definition tearDownConnection : M unit :=
  this <- get ;;
  match _tearDownConnection this with
  | Some connection =>
      tell [ConnOff connection OnError; ConnOff connection OnNotification]
  | None => throw (VError "not a function")
  end.

(** index.js:11.  The argument is a client or connection options.
    [setMaxListeners(Infinity)] only silences a warning: the listener
    table here has no bound. *)
Definition PgEe_new (options : conn + value) : Run unit :=
  match options with
  | inl client => _setupConnection (mkPgEe [] VNull VNull (Some client) None [])
  | inr opts => ret tt (mkPgEe [] VNull opts None None [])
  end.

(** index.js:35, the callback given to [Postgresql.connect]. *)
Definition connect_cb (callback : value) (err : value) (connection : conn)
    (done : value) : M unit :=
  if truthy err then _callbackOrEmit callback "error" [err]
  else
    modify (fun this =>
      mkPgEe (_channels this) done (_options this) (Some connection)
             (_tearDownConnection this) (_events this)) ;;
    _setupConnection ;;
    _callbackOrEmit callback "connect" [].

(** index.js:30 *)
Definition connect (callback : value) : M unit :=
  this <- get ;;
  match _connection this with
  | Some _ => _callbackOrEmit callback "connect" []
  | None => tell [PoolConnect (_options this) callback]
  end.

(** index.js:72, the callback given to [query] by [listen]. *)
Definition listen_cb (channel : string) (listener callback : value)
    (err : value) : M unit :=
  if truthy err then _callbackOrEmit callback "error" [err]
  else
    this <- get ;;
    (if indexOf (_channels this) channel =? -1
     then modify (set_channels (push (_channels this) channel))
     else ret tt) ;;
    (if is_function listener then on channel listener else ret tt) ;;
    _callbackOrEmit callback "listen" [VNull; VStr channel].

(** index.js:54-61 and 97-104: a channel argument is a bare name or an
    object carrying the name and options; the name is coerced. *)
Definition is_spec (channel : value) : bool :=
  negb (is_null channel) && is_object channel.

Definition listener_of (channel : value) : value :=
  if is_spec channel then prop channel "listener" else VNull.

Definition removeListeners_of (channel : value) : bool :=
  if is_spec channel then truthy (prop channel "removeListeners") else false.

Definition channel_name (channel : value) : string :=
  to_str (if is_spec channel then prop channel "channel" else channel).

(** The arguments on which [channel + ''] (index.js:61, 104) and
    [JSON.stringify(message)] (index.js:146) cannot throw: everything but
    objects, whose coercion runs their own methods. *)
Definition name_safe (channel : value) : bool :=
  match (if is_spec channel then prop channel "channel" else channel) with
  | VObj _ | VError _ => false
  | _ => true
  end.


(** index.js:48 *)
Definition listen (channel callback : value) : M unit :=
  this <- get ;;
  match _connection this with
  | None => _callbackOrEmit callback "error" [not_connected]
  | Some _ =>
      let listener := listener_of channel in
      let channel := channel_name channel in
      if negb (indexOf (_channels this) channel =? -1) then
        (if is_function listener then on channel listener else ret tt) ;;
        _callbackOrEmit callback "listen" [VNull; VStr channel]
      else query (LISTEN channel) None (KListen channel listener callback)
  end.

(** index.js:115, the callback given to [query] by [unlisten]. *)
Definition unlisten_cb (channel : string) (removeListeners : bool)
    (callback : value) (err : value) : M unit :=
  if truthy err then _callbackOrEmit callback "error" [err]
  else
    this <- get ;;
    let index := indexOf (_channels this) channel in
    (if negb (index =? -1)
     then modify (set_channels (splice1 (_channels this) index))
     else ret tt) ;;
    (if removeListeners then removeAllListeners (Some channel) else ret tt) ;;
    _callbackOrEmit callback "unlisten" [VNull; VStr channel].

(** index.js:91 *)
Definition unlisten (channel callback : value) : M unit :=
  this <- get ;;
  match _connection this with
  | None => _callbackOrEmit callback "error" [not_connected]
  | Some _ =>
      let removeListeners := removeListeners_of channel in
      let channel := channel_name channel in
      if indexOf (_channels this) channel =? -1 then
        (if removeListeners then removeAllListeners (Some channel) else ret tt) ;;
        _callbackOrEmit callback "unlisten" [VNull; VStr channel]
      else query (UNLISTEN channel) None (KUnlisten channel removeListeners callback)
  end.

(** index.js:156 *)
Definition close : M unit :=
  this <- get ;;
  match _connection this with
  | None => ret tt
  | Some _ =>
      (if is_function (_done this) then apply (_done this) [] else ret tt) ;;
      removeAllListeners None ;;
      tearDownConnection ;;
      modify (fun this =>
        mkPgEe [] VNull (_options this) None
               (_tearDownConnection this) (_events this))
  end.

(** index.js:176 *)
Definition connectionOnError (err : value) : M unit :=
  _emit "error" err.

Definition parse (payload : string) : M value :=
  match JSON_parse payload with
  | Some v => ret v
  | None => throw SyntaxError
  end.

(** index.js:180 *)
Definition connectionOnNotification (notification : Notification) : M unit :=
  let channel := n_channel notification in
  let payload := VStr (n_payload notification) in
  try_finally (parse (n_payload notification))
    (fun c =>
       let payload := match c with Normal v => v | Throw _ => payload end in
       _emit channel payload) ;;
  ret tt.

(** The driver runs a query callback with the command's error (or a
    falsy value on success). *)
Definition resume (k : cont) (err : value) : M unit :=
  match k with
  | KListen channel listener callback => listen_cb channel listener callback err
  | KUnlisten channel removeListeners callback =>
      unlisten_cb channel removeListeners callback err
  | KEmit => emit_cb err
  end.

(** The commands a run sent to the database, in order. *)
Definition commands (t : list effect) : list (string * option (list value)) :=
  omap (fun e => match e with
                 | Query _ sql params _ => Some (sql, params)
                 | _ => None
                 end) t.

Definition pending (t : list effect) : list cont :=
  omap (fun e => match e with Query _ _ _ k => Some k | _ => None end) t.

Fixpoint resume_all (ks : list cont) (err : value) : M unit :=
  match ks with
  | [] => ret tt
  | k :: ks' => resume k err ;; resume_all ks' err
  end.

(** A call whose commands are answered (all with [err]) before anything
    else happens. *)
Definition complete (m : M unit) (err : value) : M unit :=
  fun this =>
    let r := m this in
    match outcome r with
    | Normal _ =>
        let r' := resume_all (pending (trace r)) err (after r) in
        mkRun (outcome r') (after r') (trace r ++ trace r')
    | Throw e => r
    end.

(** Two calls made back to back; only then does the driver answer the
    outstanding commands, in the order they were sent or in the opposite
    order. *)
Definition race (m1 m2 : M unit) (swap : bool) (err : value) : M unit :=
  fun this =>
    let r1 := m1 this in
    let r2 := m2 (after r1) in
    let ks := pending (trace r1) ++ pending (trace r2) in
    let r3 := resume_all (if swap then reverse ks else ks) err (after r2) in
    mkRun (outcome r3) (after r3) (trace r1 ++ trace r2 ++ trace r3).

(** listen, unlisten, listen, unlisten on one channel argument, each call
    settled before the next is made. *)
Definition listen_unlisten_twice (channel : value) (cb1 cb2 cb3 cb4 ok : value)
    : M unit :=
  complete (listen channel cb1) ok ;;
  complete (unlisten channel cb2) ok ;;
  complete (listen channel cb3) ok ;;
  complete (unlisten channel cb4) ok.

(** What firing [event] through the base emitter leaves in the trace,
    and what a result report leaves: the callback applied, or else the
    event fired. *)
Definition fired (event : string) (args : list value) (this : PgEe) : list effect :=
  Emitted event args :: map (fun f => Call f args) (listeners event this).

Definition report (callback : value) (event : string) (args : list value)
    (this : PgEe) : list effect :=
  match callback with
  | VFun f => [Call f args]
  | _ => fired event args this
  end.

Definition fired_outcome (event : string) (args : list value) (this : PgEe)
    : completion unit :=
  match listeners event this with
  | [] => if String.eqb event "error" then Throw (unhandled (hd VUndefined args))
          else Normal tt
  | _ => Normal tt
  end.

Definition report_outcome (callback : value) (event : string)
    (args : list value) (this : PgEe) : completion unit :=
  if is_function callback then Normal tt else fired_outcome event args this.

(** Every live connection has its tear-down closure installed. *)
Definition wf (this : PgEe) : Prop :=
  _connection this <> None -> _tearDownConnection this <> None.

End PgEe.

(** ** The instance after the guarded steps of the callbacks *)

(** The instance after [this.on(channel, listener)] guarded by
    [typeof listener === 'function']. *)
Definition attach (listener : value) (ch : string) (this : PgEe) : PgEe :=
  match listener with
  | VFun f =>
      set_events (replace_event ch (listeners ch this ++ [f]) (_events this)) this
  | _ => this
  end.

(** The instance after [removeAllListeners(channel)] guarded by
    [removeListeners]. *)
Definition detach (removeListeners : bool) (ch : string) (this : PgEe) : PgEe :=
  if removeListeners
  then match listeners ch this with
       | [] => this
       | _ => set_events (delete_event ch (_events this)) this
       end
  else this.

(** The registry after a successful LISTEN has landed. *)
Definition add_channel (c : string) (this : PgEe) : PgEe :=
  if indexOf (_channels this) c =? -1
  then set_channels (push (_channels this) c) this else this.

(** The registry after a successful UNLISTEN has landed. *)
Definition remove_channel (c : string) (this : PgEe) : PgEe :=
  if negb (indexOf (_channels this) c =? -1)
  then set_channels (splice1 (_channels this) (indexOf (_channels this) c)) this
  else this.

(** ** Concrete instances *)

(** Instances of the host hooks for the runs below.  They agree with the
    host on the values these runs coerce, encode and decode: strings and
    plain objects for [ToString]; [null], booleans, the empty object and
    strings without characters to escape for the JSON encoder; the decoder
    also rejects text that is not JSON. *)
Definition ToString_plain (v : value) : string := "[object Object]".

Definition JSON_stringify_small (v : value) : value :=
  match v with
  | VNull => VStr "null"
  | VBool true => VStr "true"
  | VBool false => VStr "false"
  | VUndefined | VFun _ => VUndefined
  | VStr s => VStr (dquote +:+ s +:+ dquote)
  | _ => VStr "{}"
  end.

Definition JSON_parse_small (s : string) : option value :=
  if String.eqb s "null" then Some VNull
  else if String.eqb s "true" then Some (VBool true)
  else if String.eqb s "false" then Some (VBool false)
  else if String.eqb s "{}" then Some (VObj [])
  else None.

(** [new PgEe(CONNECT_STRING)], and [new PgEe(client)]. *)
Definition fresh : PgEe :=
  after (PgEe_new (inr (VStr "postgres://localhost/postgres"))).

Definition connected : PgEe := after (PgEe_new (inl 1%nat)).

(** [connected] after [on('error', f7)]. *)
Definition guarded : PgEe :=
  after (on JSON_stringify_small "error" (VFun 7%nat) connected).

(** [connected] after [on('newListener', f6)] and
    [on('removeListener', f5)]. *)
Definition watched : PgEe :=
  after (on JSON_stringify_small "removeListener" (VFun 5%nat)
           (after (on JSON_stringify_small "newListener" (VFun 6%nat) connected))).

Definition foo_spec : value :=
  VObj [("channel", VStr "foo"); ("listener", VFun 9%nat); ("removeListeners", VBool true)].

(** ** Everything that can happen to an instance

    The calls of the public API (with the emitter's own [on] and
    [removeAllListeners]), the answers of the pool and of the driver, and
    the events of the connection.  A turn that throws gives control back
    to the event loop; the instance stays as the turn left it. *)

Inductive op : Type :=
| OConnect (callback : value)
| OConnectAnswer (callback err : value) (connection : conn) (done : value)
| OListen (channel callback : value)
| OUnlisten (channel callback : value)
| OEmit (event message : value)
| OClose
| OAnswer (k : cont) (err : value)
| ONotification (notification : Notification)
| OConnectionError (err : value)
| OOn (event : string) (listener : value)
| ORemoveAllListeners (event : option string).

Definition run_op (ToString : value -> string) (JSON_stringify : value -> value)
    (JSON_parse : string -> option value) (o : op) : M unit :=
  match o with
  | OConnect callback => connect callback
  | OConnectAnswer callback err connection done =>
      connect_cb callback err connection done
  | OListen channel callback => listen ToString JSON_stringify channel callback
  | OUnlisten channel callback => unlisten ToString JSON_stringify channel callback
  | OEmit event message => emit JSON_stringify event message
  | OClose => close JSON_stringify
  | OAnswer k err => resume JSON_stringify k err
  | ONotification notification => connectionOnNotification JSON_parse notification
  | OConnectionError err => connectionOnError err
  | OOn event listener => on JSON_stringify event listener
  | ORemoveAllListeners event => removeAllListeners JSON_stringify event
  end.

Definition exec (ToString : value -> string) (JSON_stringify : value -> value)
    (JSON_parse : string -> option value) (ops : list op) (this : PgEe) : PgEe :=
  fold_left (fun s o => after (run_op ToString JSON_stringify JSON_parse o s)) ops this.

Definition is_pool_answer (o : op) : bool :=
  match o with OConnectAnswer _ _ _ _ => true | _ => false end.

(** The user functions a run applied, in order. *)
Definition calls (t : list effect) : list (fn * list value) :=
  omap (fun e => match e with Call f args => Some (f, args) | _ => None end) t.

(** The events a run fired through the base emitter, in order. *)
Definition events_fired (t : list effect) : list (string * list value) :=
  omap (fun e => match e with Emitted ev args => Some (ev, args) | _ => None end) t.

(** ** What the announcements of the emitter send

    With a live connection an announcement is one [pg_notify] command
    whose channel is the meta-event and whose payload is the encoded event
    name.  [on] announces when ['newListener'] has a listener;
    [removeAllListeners(type)] announces each removal after which
    ['removeListener'] still has a listener. *)

Definition announcement (JSON_stringify : value -> value) (cn : conn)
    (name type : string) : effect :=
  Query cn pg_notify (Some [VStr name; JSON_stringify (VStr type)]) KEmit.

Definition announce_new (JSON_stringify : value -> value) (cn : conn)
    (listener : value) (type : string) (this : PgEe) : list effect :=
  if is_function listener
  then match listeners "newListener" this with
       | [] => []
       | _ => [announcement JSON_stringify cn "newListener" type]
       end
  else [].

Definition removals (type : string) (this : PgEe) : nat :=
  match listeners "removeListener" this with
  | [] => O
  | rl =>
      if String.eqb type "removeListener" then Nat.pred (length rl)
      else length (listeners type this)
  end.

Definition announce_removed (JSON_stringify : value -> value) (cn : conn)
    (removeListeners : bool) (type : string) (this : PgEe) : list effect :=
  if removeListeners
  then repeat (announcement JSON_stringify cn "removeListener" type)
              (removals type this)
  else [].

(** The LISTEN and UNLISTEN commands of a run: its commands other than
    [pg_notify]. *)
Definition subscriptions (t : list effect) : list (string * option (list value)) :=
  List.filter (fun q => negb (String.eqb (fst q) pg_notify)) (commands t).

(** The fields of the instance other than the listener table. *)
Definition core_of (this : PgEe) : PgEe := set_events [] this.

(** The announcements of removals, as effects of a run, and the release
    of a pooled connection as [close] performs it. *)
Definition removal_announcements (JSON_stringify : value -> value) (cn : conn)
    (t : list effect) : Prop :=
  Forall (fun e => exists type, e = announcement JSON_stringify cn "removeListener" type) t.

Definition release (this : PgEe) : list effect :=
  match _done this with
  | VFun d => [Call d []]
  | _ => []
  end.

(** A command that announces a registration or a removal. *)
Definition is_meta (JSON_stringify : value -> value)
    (q : string * option (list value)) : Prop :=
  exists name type,
    (name = "newListener" \/ name = "removeListener") /\
    q = (pg_notify, Some [VStr name; JSON_stringify (VStr type)]).

(** * Properties *)

(** ** Arrays *)

Lemma indexOf_ge l x : -1 <= indexOf l x.
Proof.
  induction l as [|y l IH]; simpl; [lia|].
  destruct (String.eqb y x); [lia|].
  destruct (indexOf l x =? -1) eqn:E; lia.
Qed.

Lemma indexOf_absent l x : indexOf l x = -1 <-> x ∉ l.
Proof.
  induction l as [|y l IH]; simpl.
  - split; [intros _; apply not_elem_of_nil | reflexivity].
  - destruct (String.eqb_spec y x) as [->|Hne].
    + split; [lia | intros H; exfalso; apply H; left].
    + pose proof (indexOf_ge l x).
      destruct (indexOf l x =? -1) eqn:E.
      * apply Z.eqb_eq in E. split; [|reflexivity].
        intros _ Hin. apply elem_of_cons in Hin as [->|Hin]; [congruence|].
        by apply IH in Hin.
      * apply Z.eqb_neq in E. split; [lia|].
        intros Hnin. exfalso. apply E, IH. intros Hin. apply Hnin. by right.
Qed.

Lemma indexOf_absent_b l x : (indexOf l x =? -1) = true <-> x ∉ l.
Proof. rewrite Z.eqb_eq. apply indexOf_absent. Qed.

Lemma indexOf_present_b l x : (indexOf l x =? -1) = false <-> x ∈ l.
Proof.
  rewrite Z.eqb_neq, indexOf_absent. split; [|tauto].
  intros H. destruct (decide (x ∈ l)); tauto.
Qed.

Lemma occurrences_absent c l : occurrences c l = 0%nat <-> c ∉ l.
Proof.
  unfold occurrences. rewrite <- count_occ_not_In, <- list_elem_of_In. tauto.
Qed.

Lemma occurrences_app c l1 l2 :
  occurrences c (l1 ++ l2) = (occurrences c l1 + occurrences c l2)%nat.
Proof. apply count_occ_app. Qed.

Lemma occurrences_push c l :
  c ∉ l -> occurrences c (push l c) = 1%nat.
Proof.
  intros H. unfold push. rewrite occurrences_app.
  apply occurrences_absent in H. rewrite H. unfold occurrences. simpl.
  destruct (String.string_dec c c); congruence.
Qed.

(** [splice] at the position [indexOf] found removes the first
    occurrence. *)
Lemma occurrences_splice c l :
  c ∈ l ->
  occurrences c (splice1 l (indexOf l c)) = Nat.pred (occurrences c l).
Proof.
  unfold splice1, occurrences.
  induction l as [|y l IH]; intros Hin; [by apply elem_of_nil in Hin|].
  simpl indexOf. destruct (String.eqb_spec y c) as [->|Hne].
  - simpl. destruct (String.string_dec c c); [reflexivity|congruence].
  - apply elem_of_cons in Hin as [->|Hin]; [congruence|].
    pose proof (indexOf_ge l c).
    assert (indexOf l c <> -1) as Hi by (rewrite indexOf_absent; tauto).
    destruct (indexOf l c =? -1) eqn:E; [apply Z.eqb_eq in E; lia|].
    replace (Z.to_nat (indexOf l c + 1)) with (S (Z.to_nat (indexOf l c))) by lia.
    simpl. destruct (String.string_dec y c); [congruence|]. by apply IH.
Qed.

Lemma splice_push c l : c ∉ l -> splice1 (push l c) (indexOf (push l c) c) = l.
Proof.
  unfold splice1, push.
  induction l as [|y l IH]; intros Hnin; simpl.
  - by rewrite String.eqb_refl.
  - apply not_elem_of_cons in Hnin as [Hne Hnin].
    destruct (String.eqb_spec y c) as [->|_]; [congruence|].
    pose proof (indexOf_ge (l ++ [c]) c).
    assert (indexOf (l ++ [c]) c <> -1) as Hi.
    { rewrite indexOf_absent. intros H'. apply H'. apply elem_of_app. right. left. }
    destruct (indexOf (l ++ [c]) c =? -1) eqn:E; [apply Z.eqb_eq in E; lia|].
    replace (Z.to_nat (indexOf (l ++ [c]) c + 1))
      with (S (Z.to_nat (indexOf (l ++ [c]) c))) by lia.
    simpl. f_equal. by apply IH.
Qed.

(** ** The listener table *)

Lemma lookup_replace_same e ls t : lookup_event e (replace_event e ls t) = ls.
Proof.
  induction t as [|[k ls'] t IH]; simpl.
  - by rewrite String.eqb_refl.
  - destruct (String.eqb k e) eqn:E; simpl; by rewrite E.
Qed.

Lemma lookup_replace_other e e' ls t :
  e' <> e -> lookup_event e' (replace_event e ls t) = lookup_event e' t.
Proof.
  intros Hne. induction t as [|[k ls'] t IH]; simpl.
  - destruct (String.eqb_spec e e'); [congruence|done].
  - destruct (String.eqb_spec k e) as [->|Hk]; simpl.
    + destruct (String.eqb_spec e e'); [congruence|done].
    + by rewrite IH.
Qed.

Lemma lookup_delete_same e t : lookup_event e (delete_event e t) = [].
Proof.
  induction t as [|[k ls'] t IH]; simpl; [done|].
  destruct (String.eqb k e) eqn:E; simpl; [done|]. by rewrite E.
Qed.

Lemma lookup_delete_other e e' t :
  e' <> e -> lookup_event e' (delete_event e t) = lookup_event e' t.
Proof.
  intros Hne. induction t as [|[k ls'] t IH]; simpl; [done|].
  destruct (String.eqb_spec k e) as [->|Hk]; simpl.
  - destruct (String.eqb_spec e e'); [congruence|done].
  - by rewrite IH.
Qed.

Lemma lookup_store_same e ls t : lookup_event e (store_event e ls t) = ls.
Proof.
  destruct ls; simpl; [apply lookup_delete_same|apply lookup_replace_same].
Qed.

Lemma lookup_store_other e e' ls t :
  e' <> e -> lookup_event e' (store_event e ls t) = lookup_event e' t.
Proof.
  intros Hne. destruct ls; simpl;
    [by apply lookup_delete_other|by apply lookup_replace_other].
Qed.

Lemma delete_replace e ls t : delete_event e (replace_event e ls t) = delete_event e t.
Proof.
  induction t as [|[k ls'] t IH]; simpl.
  - by rewrite String.eqb_refl.
  - destruct (String.eqb k e) eqn:E; simpl; rewrite E; [done|]. by rewrite IH.
Qed.

Lemma delete_delete e t : delete_event e (delete_event e t) = delete_event e t.
Proof.
  induction t as [|[k ls'] t IH]; simpl; [done|].
  destruct (String.eqb k e) eqn:E; simpl; [done|]. by rewrite E, IH.
Qed.

Lemma delete_store e ls t : delete_event e (store_event e ls t) = delete_event e t.
Proof. destruct ls; simpl; [apply delete_delete|apply delete_replace]. Qed.

(** ** Run equations of the emitter and the reporting helpers *)

Lemma _emit_run ev m this :
  _emit ev m this = mkRun (fired_outcome ev [m] this) this (fired ev [m] this).
Proof.
  unfold _emit, EventEmitter_emit, fired_outcome, fired, bind, get, tell, ret, throw.
  simpl. destruct (listeners ev this) as [|f fs]; simpl.
  - destruct (String.eqb ev "error"); reflexivity.
  - by rewrite !app_nil_r.
Qed.

Lemma _callbackOrEmit_run cb ev args this :
  _callbackOrEmit cb ev args this
  = mkRun (report_outcome cb ev args this) this (report cb ev args this).
Proof.
  unfold _callbackOrEmit, report_outcome, report.
  destruct cb; simpl; try reflexivity;
    unfold EventEmitter_emit, fired_outcome, fired, bind, get, tell, ret, throw;
    simpl; (destruct (listeners ev this) as [|f fs]; simpl;
            [destruct (String.eqb ev "error"); reflexivity
            |by rewrite !app_nil_r]).
Qed.

(** A step that completes normally and silently hands over to the rest. *)
Lemma bind_silent {A B} (m : M A) (f : A -> M B) this a this1 :
  m this = mkRun (Normal a) this1 [] -> bind m f this = f a this1.
Proof.
  intros E. unfold bind. rewrite E. simpl. by destruct (f a this1).
Qed.

Lemma bind_get {B} (f : PgEe -> M B) this : bind get f this = f this this.
Proof. by apply bind_silent. Qed.

Lemma fired_outcome_other ev args this :
  String.eqb ev "error" = false -> fired_outcome ev args this = Normal tt.
Proof.
  intros H. unfold fired_outcome. rewrite H. by destruct (listeners ev this).
Qed.

Lemma report_outcome_other cb ev args this :
  String.eqb ev "error" = false -> report_outcome cb ev args this = Normal tt.
Proof.
  intros H. unfold report_outcome. destruct (is_function cb); [done|].
  by apply fired_outcome_other.
Qed.

Lemma commands_fired ev args this : commands (fired ev args this) = [].
Proof.
  unfold fired. simpl. induction (listeners ev this) as [|f fs IH]; simpl; auto.
Qed.

Lemma commands_report cb ev args this : commands (report cb ev args this) = [].
Proof. destruct cb; simpl; try apply commands_fired. reflexivity. Qed.

Lemma commands_app t1 t2 : commands (t1 ++ t2) = commands t1 ++ commands t2.
Proof. unfold commands. apply omap_app. Qed.

Lemma pending_fired ev args this : pending (fired ev args this) = [].
Proof.
  unfold fired. simpl. induction (listeners ev this) as [|f fs IH]; simpl; auto.
Qed.

Lemma pending_report cb ev args this : pending (report cb ev args this) = [].
Proof. destruct cb; simpl; try apply pending_fired. reflexivity. Qed.

Lemma is_function_VFun v : is_function v = true -> exists f, v = VFun f.
Proof. destruct v; simpl; try discriminate. eauto. Qed.

Lemma is_str_spec s v : is_str s v = true <-> v = VStr s.
Proof.
  destruct v; simpl; try (split; [discriminate | congruence]).
  rewrite String.eqb_eq. split; congruence.
Qed.

(** ** The instance after attaching and detaching *)

Lemma set_events_set_events ev ev' this :
  set_events ev (set_events ev' this) = set_events ev this.
Proof. done. Qed.

Lemma set_events_id this : set_events (_events this) this = this.
Proof. by destruct this. Qed.

Lemma attach_channels l ch this : _channels (attach l ch this) = _channels this.
Proof. by destruct l. Qed.

Lemma attach_connection l ch this : _connection (attach l ch this) = _connection this.
Proof. by destruct l. Qed.

Lemma detach_channels b ch this : _channels (detach b ch this) = _channels this.
Proof. destruct b; simpl; [|done]. by destruct (listeners ch this). Qed.

Lemma detach_connection b ch this : _connection (detach b ch this) = _connection this.
Proof. destruct b; simpl; [|done]. by destruct (listeners ch this). Qed.

Lemma attach_core l ch this : core_of (attach l ch this) = core_of this.
Proof. by destruct l. Qed.

Lemma detach_core b ch this : core_of (detach b ch this) = core_of this.
Proof. destruct b; simpl; [|done]. by destruct (listeners ch this). Qed.

Lemma add_channel_events c this : _events (add_channel c this) = _events this.
Proof. unfold add_channel. by destruct (_ =? _). Qed.

Lemma remove_channel_events c this : _events (remove_channel c this) = _events this.
Proof. unfold remove_channel. by destruct (negb _). Qed.

Lemma listeners_attach e l c this :
  listeners e (attach l c this)
  = if decide (e = c)
    then listeners c this ++ match l with VFun f => [f] | _ => [] end
    else listeners e this.
Proof.
  destruct l; cbn; case_decide; subst; rewrite ?app_nil_r; try done.
  - unfold listeners at 1. cbn. by rewrite lookup_replace_same.
  - unfold listeners at 1. cbn. by rewrite lookup_replace_other.
Qed.

Lemma listeners_detach e (b : bool) c this :
  listeners e (detach b c this)
  = if b then (if decide (e = c) then [] else listeners e this)
    else listeners e this.
Proof.
  destruct b; cbn; [|done]. destruct (listeners c this) eqn:Hc.
  - case_decide; by subst.
  - unfold listeners at 1. cbn. case_decide; subst.
    + by rewrite lookup_delete_same.
    + by rewrite lookup_delete_other.
Qed.

(** What the fields of two instances with the same core agree on. *)
Lemma core_fields s s' :
  core_of s = core_of s' ->
  _channels s = _channels s' /\ _done s = _done s' /\ _options s = _options s' /\
  _connection s = _connection s' /\ _tearDownConnection s = _tearDownConnection s'.
Proof.
  unfold core_of, set_events. intros [= H1 H2 H3 H4 H5]. done.
Qed.

Lemma core_set_events ev this : core_of (set_events ev this) = core_of this.
Proof. done. Qed.

Lemma core_set_channels_events l ev this :
  set_channels l (set_events ev this) = set_events ev (set_channels l this).
Proof. done. Qed.

Lemma add_channel_absent c this :
  c ∉ _channels this ->
  add_channel c this = set_channels (push (_channels this) c) this.
Proof. intros H. unfold add_channel. apply indexOf_absent_b in H. by rewrite H. Qed.

Lemma add_channel_present c this : c ∈ _channels this -> add_channel c this = this.
Proof. intros H. unfold add_channel. apply indexOf_present_b in H. by rewrite H. Qed.

Lemma remove_channel_absent c this : c ∉ _channels this -> remove_channel c this = this.
Proof. intros H. unfold remove_channel. apply indexOf_absent_b in H. by rewrite H. Qed.

Lemma remove_channel_present c this :
  c ∈ _channels this ->
  remove_channel c this
  = set_channels (splice1 (_channels this) (indexOf (_channels this) c)) this.
Proof. intros H. unfold remove_channel. apply indexOf_present_b in H. by rewrite H. Qed.

Lemma elem_of_push c l : c ∈ push l c.
Proof. unfold push. apply elem_of_app. right. left. Qed.

Lemma occurrences_present c l : (0 < occurrences c l)%nat <-> c ∈ l.
Proof.
  unfold occurrences. rewrite list_elem_of_In.
  rewrite (count_occ_In String.string_dec). lia.
Qed.

Lemma NoDup_push c l : NoDup l -> c ∉ l -> NoDup (push l c).
Proof.
  intros Hl Hc. unfold push. apply NoDup_app. split; [done|]. split.
  - intros x Hx ->%list_elem_of_singleton. done.
  - apply NoDup_singleton.
Qed.

Lemma NoDup_splice1 l i : NoDup l -> NoDup (splice1 l i).
Proof. intros H. unfold splice1. eapply sublist_NoDup; [done|apply sublist_delete]. Qed.

Lemma NoDup_occurrences c l : NoDup l -> c ∈ l -> occurrences c l = 1%nat.
Proof.
  intros Hl Hin. unfold occurrences.
  apply NoDup_ListNoDup in Hl.
  pose proof (proj1 (List.NoDup_count_occ String.string_dec l) Hl c) as Hle.
  apply list_elem_of_In in Hin.
  apply (count_occ_In String.string_dec) in Hin. lia.
Qed.

Lemma add_channel_NoDup c this :
  NoDup (_channels this) -> NoDup (_channels (add_channel c this)).
Proof.
  intros H. destruct (decide (c ∈ _channels this)).
  - by rewrite add_channel_present.
  - rewrite add_channel_absent by done. by apply NoDup_push.
Qed.

Lemma remove_channel_NoDup c this :
  NoDup (_channels this) -> NoDup (_channels (remove_channel c this)).
Proof.
  intros H. destruct (decide (c ∈ _channels this)).
  - rewrite remove_channel_present by done. by apply NoDup_splice1.
  - by rewrite remove_channel_absent.
Qed.


Lemma elem_of_splice_other x c l :
  x <> c -> c ∈ l -> x ∈ splice1 l (indexOf l c) <-> x ∈ l.
Proof.
  intros Hne. unfold splice1. induction l as [|y l IH]; intros Hin;
    [by apply elem_of_nil in Hin|].
  simpl indexOf. destruct (String.eqb_spec y c) as [->|Hyc].
  - simpl. rewrite elem_of_cons. split; [auto|]. intros [|]; [congruence|done].
  - apply elem_of_cons in Hin as [->|Hin]; [congruence|].
    pose proof (indexOf_ge l c).
    assert (indexOf l c <> -1) as Hi by (rewrite indexOf_absent; tauto).
    destruct (indexOf l c =? -1) eqn:E; [apply Z.eqb_eq in E; lia|].
    replace (Z.to_nat (indexOf l c + 1)) with (S (Z.to_nat (indexOf l c))) by lia.
    simpl. rewrite !elem_of_cons, IH by done. done.
Qed.

Lemma calls_fired ev args this :
  calls (fired ev args this) = map (fun f => (f, args)) (listeners ev this).
Proof.
  unfold fired. cbn. induction (listeners ev this) as [|f fs IH]; cbn; [done|].
  by rewrite IH.
Qed.

Lemma events_fired_fired ev args this :
  events_fired (fired ev args this) = [(ev, args)].
Proof.
  unfold fired. cbn. f_equal.
  induction (listeners ev this) as [|f fs IH]; cbn; done.
Qed.

Lemma calls_report cb ev args this :
  is_function cb = true ->
  exists f, cb = VFun f /\ report cb ev args this = [Call f args].
Proof. intros [f ->]%is_function_VFun. eauto. Qed.

Lemma wf_core s s' : core_of s = core_of s' -> wf s' -> wf s.
Proof.
  intros H Hwf. apply core_fields in H as (_ & _ & _ & H4 & H5).
  unfold wf. by rewrite H4, H5.
Qed.

Lemma wf_attach l c this : wf this -> wf (attach l c this).
Proof. by destruct l. Qed.

Lemma wf_detach b c this : wf this -> wf (detach b c this).
Proof. apply wf_core, detach_core. Qed.

Lemma wf_add_channel c this : wf this -> wf (add_channel c this).
Proof. unfold add_channel. by destruct (_ =? _). Qed.

Lemma wf_remove_channel c this : wf this -> wf (remove_channel c this).
Proof. unfold remove_channel. by destruct (negb _). Qed.

Lemma add_channel_done c this : _done (add_channel c this) = _done this.
Proof. unfold add_channel. by destruct (_ =? _). Qed.

Lemma remove_channel_done c this : _done (remove_channel c this) = _done this.
Proof. unfold remove_channel. by destruct (negb _). Qed.

Lemma add_channel_connection c this :
  _connection (add_channel c this) = _connection this.
Proof. unfold add_channel. by destruct (_ =? _). Qed.

Lemma remove_channel_connection c this :
  _connection (remove_channel c this) = _connection this.
Proof. unfold remove_channel. by destruct (negb _). Qed.

Lemma subscriptions_app t1 t2 :
  subscriptions (t1 ++ t2) = subscriptions t1 ++ subscriptions t2.
Proof. unfold subscriptions. by rewrite commands_app, List.filter_app. Qed.

Lemma subscriptions_fired ev args this : subscriptions (fired ev args this) = [].
Proof. unfold subscriptions. by rewrite commands_fired. Qed.

Lemma subscriptions_report cb ev args this : subscriptions (report cb ev args this) = [].
Proof. unfold subscriptions. by rewrite commands_report. Qed.


Lemma subscriptions_LISTEN cn c ps k :
  subscriptions [Query cn (LISTEN c) ps k] = [(LISTEN c, ps)].
Proof. reflexivity. Qed.

Lemma subscriptions_UNLISTEN cn c ps k :
  subscriptions [Query cn (UNLISTEN c) ps k] = [(UNLISTEN c, ps)].
Proof. reflexivity. Qed.

Lemma subscriptions_cons e t : subscriptions (e :: t) = subscriptions [e] ++ subscriptions t.
Proof. apply (subscriptions_app [e] t). Qed.

Lemma commands_query cn sql ps k t :
  commands (Query cn sql ps k :: t) = (sql, ps) :: commands t.
Proof. reflexivity. Qed.

Lemma listeners_set_channels e l this : listeners e (set_channels l this) = listeners e this.
Proof. reflexivity. Qed.

Lemma subscriptions_cons_LISTEN cn c ps k t :
  subscriptions (Query cn (LISTEN c) ps k :: t) = (LISTEN c, ps) :: subscriptions t.
Proof. reflexivity. Qed.

Lemma subscriptions_cons_UNLISTEN cn c ps k t :
  subscriptions (Query cn (UNLISTEN c) ps k :: t) = (UNLISTEN c, ps) :: subscriptions t.
Proof. reflexivity. Qed.
(** ** Run equations of the methods *)

Section Library.

Variable ToString : value -> string.
Variable JSON_stringify : value -> value.
Variable JSON_parse : string -> option value.

Set Default Proof Using "Type".

Local Abbreviation emit := (emit JSON_stringify).
Local Abbreviation announce := (announce JSON_stringify).
Local Abbreviation on := (on JSON_stringify).
Local Abbreviation removeListener_last := (removeListener_last JSON_stringify).
Local Abbreviation remove_each := (remove_each JSON_stringify).
Local Abbreviation removeAllListeners_of := (removeAllListeners_of JSON_stringify).
Local Abbreviation remove_keys := (remove_keys JSON_stringify).
Local Abbreviation removeAllListeners := (removeAllListeners JSON_stringify).
Local Abbreviation listen := (listen ToString JSON_stringify).
Local Abbreviation unlisten := (unlisten ToString JSON_stringify).
Local Abbreviation listen_cb := (listen_cb JSON_stringify).
Local Abbreviation unlisten_cb := (unlisten_cb JSON_stringify).
Local Abbreviation resume := (resume JSON_stringify).
Local Abbreviation close := (close JSON_stringify).
Local Abbreviation channel_name := (channel_name ToString).
Local Abbreviation announcement := (announcement JSON_stringify).
Local Abbreviation announce_new := (announce_new JSON_stringify).
Local Abbreviation announce_removed := (announce_removed JSON_stringify).
Local Abbreviation removal_announcements := (removal_announcements JSON_stringify).
Local Abbreviation is_meta := (is_meta JSON_stringify).
Local Abbreviation complete := (complete JSON_stringify).
Local Abbreviation race := (race JSON_stringify).
Local Abbreviation resume_all := (resume_all JSON_stringify).
Local Abbreviation listen_unlisten_twice := (listen_unlisten_twice ToString JSON_stringify).
Local Abbreviation connectionOnNotification := (connectionOnNotification JSON_parse).
Local Abbreviation run_op := (run_op ToString JSON_stringify JSON_parse).
Local Abbreviation exec := (exec ToString JSON_stringify JSON_parse).

(** *** The public [emit] *)

Lemma emit_error m this :
  emit (VStr "error") m this
  = mkRun (fired_outcome "error" [m] this) this (fired "error" [m] this).
Proof. unfold emit. simpl. apply _emit_run. Qed.

Lemma emit_not_connected ev m this :
  is_str "error" ev = false ->
  _connection this = None ->
  emit ev m this
  = mkRun (fired_outcome "error" [not_connected] this) this
          (fired "error" [not_connected] this).
Proof.
  intros He Hc. unfold emit. rewrite He, bind_get, Hc. apply _emit_run.
Qed.

Lemma emit_issue ev m this cn :
  is_str "error" ev = false ->
  _connection this = Some cn ->
  emit ev m this
  = mkRun (Normal tt) this
      [Query cn pg_notify (Some [ev; JSON_stringify m]) KEmit].
Proof.
  intros He Hc. unfold emit. rewrite He, bind_get, Hc.
  unfold query. by rewrite bind_get, Hc.
Qed.

Lemma emit_cb_fail err this :
  truthy err = true ->
  emit_cb err this
  = mkRun (fired_outcome "error" [err] this) this (fired "error" [err] this).
Proof. intros H. unfold emit_cb. rewrite H. apply _emit_run. Qed.

Lemma emit_cb_ok ok this :
  truthy ok = false -> emit_cb ok this = mkRun (Normal tt) this [].
Proof. intros H. unfold emit_cb. by rewrite H. Qed.

Lemma emit_after ev m this : after (emit ev m this) = this.
Proof.
  destruct (is_str "error" ev) eqn:He.
  - apply is_str_spec in He as ->. by rewrite emit_error.
  - destruct (_connection this) as [cn|] eqn:Hc.
    + by rewrite (emit_issue _ _ _ cn).
    + by rewrite emit_not_connected.
Qed.

(** *** Announcements, [on] and [removeAllListeners] *)

Lemma announce_after name type this : after (announce name type this) = this.
Proof.
  unfold announce. rewrite bind_get. destruct (listeners name this); [done|].
  apply emit_after.
Qed.

Lemma announce_quiet name type this :
  listeners name this = [] -> announce name type this = mkRun (Normal tt) this [].
Proof. intros H. unfold announce. by rewrite bind_get, H. Qed.

Lemma announce_connected name type this cn :
  _connection this = Some cn ->
  name <> "error" ->
  announce name type this
  = mkRun (Normal tt) this
      match listeners name this with
      | [] => []
      | _ => [announcement cn name type]
      end.
Proof.
  intros Hc Hne. unfold announce. rewrite bind_get.
  destruct (listeners name this); [done|].
  apply emit_issue; [|done]. simpl. by apply String.eqb_neq.
Qed.

(** A step whose effects and outcome are known hands over to the rest. *)
Lemma bind_normal {A B} (m : M A) (f : A -> M B) this a this1 t1 :
  m this = mkRun (Normal a) this1 t1 ->
  bind m f this
  = mkRun (outcome (f a this1)) (after (f a this1)) (t1 ++ trace (f a this1)).
Proof. intros E. unfold bind. by rewrite E. Qed.

Lemma bind_throw {A B} (m : M A) (f : A -> M B) this e this1 t1 :
  m this = mkRun (Throw e) this1 t1 ->
  bind m f this = mkRun (Throw e) this1 t1.
Proof. intros E. unfold bind. by rewrite E. Qed.

Lemma on_connected ev l this cn :
  _connection this = Some cn ->
  (if is_function l then on ev l else ret tt) this
  = mkRun (Normal tt) (attach l ev this) (announce_new cn l ev this).
Proof.
  intros Hc. unfold announce_new.
  destruct l; try reflexivity. change (is_function (VFun f)) with true.
  cbv iota. unfold on.
  erewrite bind_normal by (by apply (announce_connected _ _ _ cn)).
  unfold modify. cbn [outcome after trace attach]. by rewrite app_nil_r.
Qed.

Lemma on_quiet ev l this :
  listeners "newListener" this = [] ->
  (if is_function l then on ev l else ret tt) this
  = mkRun (Normal tt) (attach l ev this) [].
Proof.
  intros Hq. destruct l; try reflexivity. change (is_function (VFun f)) with true.
  cbv iota. unfold on.
  erewrite bind_silent by (by apply announce_quiet). reflexivity.
Qed.

(** Whatever happens, [on] changes nothing but the listener table, and
    in it only the entry of its event. *)
Lemma on_core ev l this : core_of (after (on ev l this)) = core_of this.
Proof.
  destruct l; try reflexivity. unfold on, bind.
  pose proof (announce_after "newListener" ev this) as Ha.
  destruct (announce "newListener" ev this) as [[[]|e] s t]; simpl in *; by subst.
Qed.

Lemma on_listeners_other ev l this e :
  e <> ev -> listeners e (after (on ev l this)) = listeners e this.
Proof.
  intros Hne. destruct l; try reflexivity. unfold on, bind.
  pose proof (announce_after "newListener" ev this) as Ha.
  destruct (announce "newListener" ev this) as [[[]|e'] s t]; simpl in *; subst;
    [|done].
  unfold listeners at 1. cbn. by rewrite lookup_replace_other.
Qed.

Lemma removeListener_last_core type this :
  core_of (after (removeListener_last type this)) = core_of this.
Proof.
  unfold removeListener_last, bind, modify. cbn [outcome after trace].
  by rewrite announce_after.
Qed.

Lemma removeListener_last_other type this e :
  e <> type ->
  listeners e (after (removeListener_last type this)) = listeners e this.
Proof.
  intros Hne. unfold removeListener_last, bind, modify. cbn [outcome after trace].
  rewrite announce_after. unfold listeners at 1. cbn.
  by rewrite lookup_store_other.
Qed.

Lemma remove_each_S type n this :
  remove_each type (S n) this
  = bind (removeListener_last type) (fun _ => remove_each type n) this.
Proof. done. Qed.

Lemma bind_after_core {B} (m : M unit) (f : unit -> M B) this :
  core_of (after (m this)) = core_of this ->
  (forall s, core_of (after (f tt s)) = core_of s) ->
  core_of (after (bind m f this)) = core_of this.
Proof.
  intros Hm Hf. unfold bind. destruct (m this) as [[[]|e] s t]; simpl in *; [|done].
  by rewrite Hf.
Qed.

Lemma remove_each_core type n this :
  core_of (after (remove_each type n this)) = core_of this.
Proof.
  revert this. induction n as [|n IH]; intros this; [done|].
  rewrite remove_each_S. apply bind_after_core; [apply removeListener_last_core|done].
Qed.

Lemma remove_each_other type n this e :
  e <> type -> listeners e (after (remove_each type n this)) = listeners e this.
Proof.
  intros Hne. revert this. induction n as [|n IH]; intros this; [done|].
  rewrite remove_each_S. unfold bind.
  pose proof (removeListener_last_other type this e Hne) as Hl.
  destruct (removeListener_last type this) as [[[]|e'] s t]; simpl in *; [|done].
  by rewrite IH.
Qed.

Lemma removeAllListeners_of_core type this :
  core_of (after (removeAllListeners_of type this)) = core_of this.
Proof.
  unfold removeAllListeners_of. rewrite bind_get.
  destruct (listeners "removeListener" this).
  - by destruct (listeners type this).
  - apply remove_each_core.
Qed.

Lemma removeAllListeners_of_other type this e :
  e <> type ->
  listeners e (after (removeAllListeners_of type this)) = listeners e this.
Proof.
  intros Hne. unfold removeAllListeners_of. rewrite bind_get.
  destruct (listeners "removeListener" this).
  - destruct (listeners type this) eqn:Ht; [done|].
    unfold listeners at 1. cbn. by rewrite lookup_delete_other.
  - by apply remove_each_other.
Qed.

Lemma remove_keys_cons key keys this :
  remove_keys (key :: keys) this
  = bind (if String.eqb key "removeListener" then ret tt
          else removeAllListeners_of key)
         (fun _ => remove_keys keys) this.
Proof. done. Qed.

Lemma remove_keys_core keys this :
  core_of (after (remove_keys keys this)) = core_of this.
Proof.
  revert this. induction keys as [|k keys IH]; intros this; [done|].
  rewrite remove_keys_cons. apply bind_after_core; [|done].
  destruct (String.eqb k "removeListener"); [done|].
  apply removeAllListeners_of_core.
Qed.

Lemma removeAllListeners_core ev this :
  core_of (after (removeAllListeners ev this)) = core_of this.
Proof.
  destruct ev as [type|]; unfold removeAllListeners;
    [apply removeAllListeners_of_core|].
  rewrite bind_get. destruct (listeners "removeListener" this); [done|].
  apply bind_after_core; [apply remove_keys_core|]. intros s.
  apply bind_after_core; [apply removeAllListeners_of_core|done].
Qed.

(** With a live connection every announcement is a command, so the
    removals complete and their effects are known exactly. *)
Lemma removeListener_last_connected type this cn :
  _connection this = Some cn ->
  let this' := set_events (store_event type (removelast (listeners type this))
                                       (_events this)) this in
  removeListener_last type this
  = mkRun (Normal tt) this'
      match listeners "removeListener" this' with
      | [] => []
      | _ => [announcement cn "removeListener" type]
      end.
Proof.
  intros Hc this'. unfold removeListener_last.
  erewrite bind_silent by reflexivity.
  by apply announce_connected.
Qed.

Lemma length_removelast {A} (l : list A) : length (removelast l) = Nat.pred (length l).
Proof.
  induction l as [|x l IH]; [done|]. destruct l; [done|].
  cbn [removelast length] in *. by rewrite IH.
Qed.

Lemma detach_after_store type ls this :
  detach true type
    (set_events (store_event type ls (_events this)) this)
  = set_events (delete_event type (_events this)) this.
Proof.
  unfold detach, listeners. cbn [_events set_events].
  rewrite lookup_store_same. destruct ls as [|f ls]; [done|].
  cbn [set_events _channels _done _options _connection _tearDownConnection].
  by rewrite delete_store.
Qed.

Lemma remove_each_connected_other type n this cn :
  _connection this = Some cn ->
  type <> "removeListener" ->
  listeners "removeListener" this <> [] ->
  length (listeners type this) = n ->
  remove_each type n this
  = mkRun (Normal tt) (detach true type this)
          (repeat (announcement cn "removeListener" type) n).
Proof.
  intros Hc Hne. revert this Hc.
  induction n as [|n IH]; intros this Hc Hrl Hlen.
  - apply length_zero_iff_nil in Hlen. unfold detach. by rewrite Hlen.
  - rewrite remove_each_S.
    set (s1 := set_events (store_event type (removelast (listeners type this))
                                       (_events this)) this).
    assert (listeners "removeListener" s1 = listeners "removeListener" this) as Hrl1.
    { unfold s1, listeners. cbn. by apply lookup_store_other. }
    assert (listeners type s1 = removelast (listeners type this)) as Ht1.
    { unfold s1, listeners. cbn. by apply lookup_store_same. }
    erewrite bind_normal by (by apply (removeListener_last_connected _ _ cn)).
    fold s1. rewrite Hrl1.
    rewrite (IH s1) by (rewrite ?Hrl1, ?Ht1, ?length_removelast, ?Hlen; done).
    cbn [outcome after trace]. unfold s1. rewrite detach_after_store.
    assert (detach true type this
            = set_events (delete_event type (_events this)) this) as ->.
    { unfold detach. destruct (listeners type this); [done|done]. }
    destruct (listeners "removeListener" this); [done|]. done.
Qed.

Lemma remove_each_connected_self n this cn :
  _connection this = Some cn ->
  length (listeners "removeListener" this) = n ->
  remove_each "removeListener" n this
  = mkRun (Normal tt) (detach true "removeListener" this)
          (repeat (announcement cn "removeListener" "removeListener") (Nat.pred n)).
Proof.
  intros Hc. revert this Hc.
  induction n as [|n IH]; intros this Hc Hlen.
  - apply length_zero_iff_nil in Hlen. unfold detach. by rewrite Hlen.
  - rewrite remove_each_S.
    set (s1 := set_events (store_event "removeListener"
                             (removelast (listeners "removeListener" this))
                             (_events this)) this).
    assert (listeners "removeListener" s1
            = removelast (listeners "removeListener" this)) as Ht1.
    { unfold s1, listeners. cbn. by apply lookup_store_same. }
    assert (length (listeners "removeListener" s1) = n) as Hlen1
      by (by rewrite Ht1, length_removelast, Hlen).
    erewrite bind_normal by (by apply (removeListener_last_connected _ _ cn)).
    fold s1. rewrite (IH s1) by done.
    cbn [outcome after trace]. unfold s1 at 1. rewrite detach_after_store.
    assert (detach true "removeListener" this
            = set_events (delete_event "removeListener" (_events this)) this) as ->.
    { unfold detach. destruct (listeners "removeListener" this); [done|done]. }
    destruct (listeners "removeListener" s1) eqn:E.
    + rewrite <- Hlen1. done.
    + rewrite <- Hlen1. done.
Qed.

Lemma removeAllListeners_of_connected type this cn :
  _connection this = Some cn ->
  removeAllListeners_of type this
  = mkRun (Normal tt) (detach true type this) (announce_removed cn true type this).
Proof.
  intros Hc. unfold removeAllListeners_of, announce_removed, removals.
  rewrite bind_get. destruct (listeners "removeListener" this) as [|g rl] eqn:Hrl.
  - unfold detach. by destruct (listeners type this).
  - destruct (String.eqb_spec type "removeListener") as [->|Hne].
    + rewrite (remove_each_connected_self _ _ cn) by done. by rewrite Hrl.
    + rewrite (remove_each_connected_other _ _ _ cn) by (done || by rewrite Hrl).
      done.
Qed.

Lemma removeAll_connected (b : bool) c this cn :
  _connection this = Some cn ->
  (if b then removeAllListeners (Some c) else ret tt) this
  = mkRun (Normal tt) (detach b c this) (announce_removed cn b c this).
Proof.
  intros Hc. destruct b; [|done]. by apply removeAllListeners_of_connected.
Qed.

Lemma removeAll_quiet (b : bool) c this :
  listeners "removeListener" this = [] ->
  (if b then removeAllListeners (Some c) else ret tt) this
  = mkRun (Normal tt) (detach b c this) [].
Proof.
  intros Hq. destruct b; [|done]. unfold removeAllListeners, removeAllListeners_of.
  rewrite bind_get, Hq. unfold detach. by destruct (listeners c this).
Qed.

(** *** [listen] and [unlisten] *)

Lemma announce_new_events cn l c s s' :
  _events s = _events s' -> announce_new cn l c s = announce_new cn l c s'.
Proof. intros H. unfold announce_new, listeners. by rewrite H. Qed.

Lemma announce_removed_events cn b c s s' :
  _events s = _events s' -> announce_removed cn b c s = announce_removed cn b c s'.
Proof. intros H. unfold announce_removed, removals, listeners. by rewrite H. Qed.

Lemma detach_events b c s s' :
  _events s = _events s' -> _events (detach b c s) = _events (detach b c s').
Proof.
  intros H. unfold detach, listeners. rewrite H.
  destruct b; [|done]. by destruct (lookup_event c (_events s')).
Qed.

Lemma listen_not_connected a cb this :
  _connection this = None ->
  listen a cb this
  = mkRun (report_outcome cb "error" [not_connected] this) this
          (report cb "error" [not_connected] this).
Proof.
  intros H. unfold listen. rewrite bind_get, H. apply _callbackOrEmit_run.
Qed.

Lemma listen_known a cb this cn :
  _connection this = Some cn ->
  channel_name a ∈ _channels this ->
  let c := channel_name a in
  let this' := attach (listener_of a) c this in
  listen a cb this
  = mkRun (Normal tt) this'
      (announce_new cn (listener_of a) c this
       ++ report cb "listen" [VNull; VStr c] this').
Proof.
  intros Hc Hin c this'. unfold listen. rewrite bind_get, Hc.
  apply indexOf_present_b in Hin. rewrite Hin. cbn [negb].
  erewrite bind_normal by (by apply (on_connected _ _ _ cn)).
  rewrite _callbackOrEmit_run. cbn [outcome after trace].
  by rewrite report_outcome_other.
Qed.

Lemma listen_issue a cb this cn :
  _connection this = Some cn ->
  channel_name a ∉ _channels this ->
  let c := channel_name a in
  listen a cb this
  = mkRun (Normal tt) this [Query cn (LISTEN c) None (KListen c (listener_of a) cb)].
Proof.
  intros Hc Hin c. unfold listen. rewrite bind_get, Hc.
  apply indexOf_absent_b in Hin. rewrite Hin. cbn [negb].
  unfold query. by rewrite bind_get, Hc.
Qed.

Lemma listen_cb_fail c l cb err this :
  truthy err = true ->
  listen_cb c l cb err this
  = mkRun (report_outcome cb "error" [err] this) this (report cb "error" [err] this).
Proof.
  intros H. unfold listen_cb. rewrite H. apply _callbackOrEmit_run.
Qed.

Lemma listen_cb_push c this :
  (if indexOf (_channels this) c =? -1
   then modify (set_channels (push (_channels this) c))
   else ret tt) this
  = mkRun (Normal tt) (add_channel c this) [].
Proof. unfold add_channel. by destruct (indexOf (_channels this) c =? -1). Qed.

Lemma listen_cb_ok c l cb ok this cn :
  _connection this = Some cn ->
  truthy ok = false ->
  let this' := attach l c (add_channel c this) in
  listen_cb c l cb ok this
  = mkRun (Normal tt) this'
      (announce_new cn l c this ++ report cb "listen" [VNull; VStr c] this').
Proof.
  intros Hc H this'. unfold listen_cb. rewrite H, bind_get.
  erewrite bind_silent by apply listen_cb_push.
  assert (_connection (add_channel c this) = Some cn) as Hc'.
  { unfold add_channel. by destruct (_ =? _). }
  erewrite bind_normal by (by apply (on_connected _ _ _ cn)).
  rewrite _callbackOrEmit_run. cbn [outcome after trace].
  rewrite report_outcome_other by done.
  by rewrite (announce_new_events _ _ _ _ this) by apply add_channel_events.
Qed.

Lemma listen_cb_ok_quiet c l cb ok this :
  listeners "newListener" this = [] ->
  truthy ok = false ->
  let this' := attach l c (add_channel c this) in
  listen_cb c l cb ok this
  = mkRun (Normal tt) this' (report cb "listen" [VNull; VStr c] this').
Proof.
  intros Hq H this'. unfold listen_cb. rewrite H, bind_get.
  erewrite bind_silent by apply listen_cb_push.
  erewrite bind_silent;
    [|apply on_quiet; unfold listeners; by rewrite add_channel_events].
  rewrite _callbackOrEmit_run. by rewrite report_outcome_other.
Qed.

Lemma unlisten_not_connected a cb this :
  _connection this = None ->
  unlisten a cb this
  = mkRun (report_outcome cb "error" [not_connected] this) this
          (report cb "error" [not_connected] this).
Proof.
  intros H. unfold unlisten. rewrite bind_get, H. apply _callbackOrEmit_run.
Qed.

Lemma unlisten_unknown a cb this cn :
  _connection this = Some cn ->
  channel_name a ∉ _channels this ->
  let c := channel_name a in
  let this' := detach (removeListeners_of a) c this in
  unlisten a cb this
  = mkRun (Normal tt) this'
      (announce_removed cn (removeListeners_of a) c this
       ++ report cb "unlisten" [VNull; VStr c] this').
Proof.
  intros Hc Hin c this'. unfold unlisten. rewrite bind_get, Hc.
  apply indexOf_absent_b in Hin. rewrite Hin.
  erewrite bind_normal by (by apply (removeAll_connected _ _ _ cn)).
  rewrite _callbackOrEmit_run. cbn [outcome after trace].
  by rewrite report_outcome_other.
Qed.

Lemma unlisten_issue a cb this cn :
  _connection this = Some cn ->
  channel_name a ∈ _channels this ->
  let c := channel_name a in
  unlisten a cb this
  = mkRun (Normal tt) this
      [Query cn (UNLISTEN c) None (KUnlisten c (removeListeners_of a) cb)].
Proof.
  intros Hc Hin c. unfold unlisten. rewrite bind_get, Hc.
  apply indexOf_present_b in Hin. rewrite Hin.
  unfold query. rewrite bind_get, Hc. reflexivity.
Qed.

Lemma unlisten_cb_fail c b cb err this :
  truthy err = true ->
  unlisten_cb c b cb err this
  = mkRun (report_outcome cb "error" [err] this) this (report cb "error" [err] this).
Proof.
  intros H. unfold unlisten_cb. rewrite H. apply _callbackOrEmit_run.
Qed.

Lemma unlisten_cb_splice c this :
  (if negb (indexOf (_channels this) c =? -1)
   then modify (set_channels (splice1 (_channels this) (indexOf (_channels this) c)))
   else ret tt) this
  = mkRun (Normal tt) (remove_channel c this) [].
Proof. unfold remove_channel. by destruct (indexOf (_channels this) c =? -1). Qed.

Lemma unlisten_cb_ok c b cb ok this cn :
  _connection this = Some cn ->
  truthy ok = false ->
  let this' := detach b c (remove_channel c this) in
  unlisten_cb c b cb ok this
  = mkRun (Normal tt) this'
      (announce_removed cn b c this ++ report cb "unlisten" [VNull; VStr c] this').
Proof.
  intros Hc H this'. unfold unlisten_cb. rewrite H, bind_get.
  erewrite bind_silent by apply unlisten_cb_splice.
  assert (_connection (remove_channel c this) = Some cn) as Hc'.
  { unfold remove_channel. by destruct (negb _). }
  erewrite bind_normal by (by apply (removeAll_connected _ _ _ cn)).
  rewrite _callbackOrEmit_run. cbn [outcome after trace].
  rewrite report_outcome_other by done.
  by rewrite (announce_removed_events _ _ _ _ this) by apply remove_channel_events.
Qed.

(** *** What every path of a method leaves of the instance *)

Lemma report_core cb ev args this :
  after (_callbackOrEmit cb ev args this) = this.
Proof. by rewrite _callbackOrEmit_run. Qed.

Lemma bind_after_core_gen {A B} (m : M A) (f : A -> M B) this s0 :
  core_of (after (m this)) = core_of s0 ->
  (forall a s, core_of (after (f a s)) = core_of s) ->
  core_of (after (bind m f this)) = core_of s0.
Proof.
  intros Hm Hf. unfold bind. destruct (m this) as [[a|e] s t]; simpl in *; [|done].
  by rewrite Hf.
Qed.

Lemma guarded_on_core l c this :
  core_of (after ((if is_function l then on c l else ret tt) this)) = core_of this.
Proof. destruct (is_function l); [apply on_core|done]. Qed.

Lemma guarded_remove_core (b : bool) c this :
  core_of (after ((if b then removeAllListeners (Some c) else ret tt) this))
  = core_of this.
Proof. destruct b; [apply removeAllListeners_core|done]. Qed.

Lemma add_channel_core_events ev c this :
  core_of (add_channel c (set_events ev this)) = core_of (add_channel c this).
Proof. unfold add_channel. cbn. by destruct (_ =? _). Qed.

Lemma listen_core a cb this : core_of (after (listen a cb this)) = core_of this.
Proof.
  unfold listen. rewrite bind_get. destruct (_connection this) eqn:Hc.
  - destruct (negb _).
    + apply bind_after_core_gen; [apply guarded_on_core|].
      intros _ s. by rewrite report_core.
    + unfold query. by rewrite bind_get, Hc.
  - by rewrite report_core.
Qed.

Lemma unlisten_core a cb this : core_of (after (unlisten a cb this)) = core_of this.
Proof.
  unfold unlisten. rewrite bind_get. destruct (_connection this) eqn:Hc.
  - destruct (_ =? _).
    + apply bind_after_core_gen; [apply guarded_remove_core|].
      intros _ s. by rewrite report_core.
    + unfold query. by rewrite bind_get, Hc.
  - by rewrite report_core.
Qed.

(** The core a query callback leaves, on every path. *)
Lemma listen_cb_core c l cb err this :
  core_of (after (listen_cb c l cb err this))
  = core_of (if truthy err then this else add_channel c this).
Proof.
  unfold listen_cb. destruct (truthy err); [by rewrite report_core|].
  rewrite bind_get. erewrite bind_silent by apply listen_cb_push.
  apply bind_after_core_gen; [apply guarded_on_core|].
  intros _ s. by rewrite report_core.
Qed.

Lemma unlisten_cb_core c b cb err this :
  core_of (after (unlisten_cb c b cb err this))
  = core_of (if truthy err then this else remove_channel c this).
Proof.
  unfold unlisten_cb. destruct (truthy err); [by rewrite report_core|].
  rewrite bind_get. erewrite bind_silent by apply unlisten_cb_splice.
  apply bind_after_core_gen; [apply guarded_remove_core|].
  intros _ s. by rewrite report_core.
Qed.

Lemma emit_cb_after err this : after (emit_cb err this) = this.
Proof. unfold emit_cb. destruct (truthy err); [by rewrite _emit_run|done]. Qed.

Lemma resume_core k err this :
  core_of (after (resume k err this))
  = core_of (if truthy err then this
             else match k with
                  | KListen c _ _ => add_channel c this
                  | KUnlisten c _ _ => remove_channel c this
                  | KEmit => this
                  end).
Proof.
  destruct k as [c l cb|c b cb|]; unfold resume.
  - apply listen_cb_core.
  - apply unlisten_cb_core.
  - rewrite emit_cb_after. by destruct (truthy err).
Qed.

(** The instance a query callback leaves when its [on] or
    [removeAllListeners] completes: with a live connection, or with no
    listener for the meta-event. *)
Lemma resume_after k err this cn :
  _connection this = Some cn ->
  after (resume k err this)
  = if truthy err then this
    else match k with
         | KListen c l _ => attach l c (add_channel c this)
         | KUnlisten c b _ => detach b c (remove_channel c this)
         | KEmit => this
         end.
Proof.
  intros Hc. destruct (truthy err) eqn:E; destruct k as [c l cb|c b cb|];
    unfold resume.
  - by rewrite listen_cb_fail.
  - by rewrite unlisten_cb_fail.
  - by rewrite emit_cb_fail.
  - by rewrite (listen_cb_ok _ _ _ _ _ cn).
  - by rewrite (unlisten_cb_ok _ _ _ _ _ cn).
  - by rewrite emit_cb_ok.
Qed.

(** *** Calls whose commands are answered at once *)

Lemma resume_all_one k err this : resume_all [k] err this = resume k err this.
Proof.
  simpl. unfold bind, ret. destruct (resume k err this) as [[[]|e] s t]; simpl;
    by rewrite ?app_nil_r.
Qed.

Lemma resume_all_cons k ks err this :
  resume_all (k :: ks) err this
  = bind (resume k err) (fun _ => resume_all ks err) this.
Proof. done. Qed.

Lemma resume_all_two k1 k2 err this s1 t1 :
  resume k1 err this = mkRun (Normal tt) s1 t1 ->
  resume_all [k1; k2] err this
  = mkRun (outcome (resume k2 err s1)) (after (resume k2 err s1))
          (t1 ++ trace (resume k2 err s1)).
Proof.
  intros E. rewrite resume_all_cons.
  erewrite bind_normal by exact E. by rewrite resume_all_one.
Qed.

(** Answering the announcements of a run with success changes nothing. *)
Lemma resume_all_announcements n err this :
  truthy err = false ->
  resume_all (repeat KEmit n) err this = mkRun (Normal tt) this [].
Proof.
  intros H. induction n as [|n IH]; [done|].
  cbn [repeat]. rewrite resume_all_cons.
  erewrite bind_silent; [exact IH|]. unfold resume. by apply emit_cb_ok.
Qed.

Lemma resume_all_app_announcements n ks err this :
  truthy err = false ->
  resume_all (repeat KEmit n ++ ks) err this
  = resume_all ks err this.
Proof.
  intros H. induction n as [|n IH]; [done|].
  cbn [repeat app]. rewrite resume_all_cons.
  erewrite bind_silent; [exact IH|]. unfold resume. by apply emit_cb_ok.
Qed.

Lemma pending_app t1 t2 : pending (t1 ++ t2) = pending t1 ++ pending t2.
Proof. unfold pending. apply omap_app. Qed.

Lemma pending_announce_new cn l c this :
  exists n, pending (announce_new cn l c this) = repeat KEmit n.
Proof.
  unfold announce_new. destruct (is_function l); [|by exists O].
  destruct (listeners "newListener" this); [by exists O|by exists 1%nat].
Qed.

Lemma pending_announce_removed cn b c this :
  exists n, pending (announce_removed cn b c this) = repeat KEmit n.
Proof.
  unfold announce_removed. destruct b; [|by exists O].
  exists (removals c this). induction (removals c this) as [|n IH]; [done|].
  cbn. by rewrite <- IH.
Qed.

Lemma subscriptions_announce_new cn l c this :
  subscriptions (announce_new cn l c this) = [].
Proof.
  unfold announce_new. destruct (is_function l); [|done].
  by destruct (listeners "newListener" this).
Qed.

Lemma subscriptions_announce_removed cn b c this :
  subscriptions (announce_removed cn b c this) = [].
Proof.
  unfold announce_removed. destruct b; [|done].
  induction (removals c this) as [|n IH]; [done|]. cbn in *. done.
Qed.

Lemma complete_issue (m : M unit) err this s cn sql ps k :
  m this = mkRun (Normal tt) s [Query cn sql ps k] ->
  complete m err this
  = mkRun (outcome (resume k err s)) (after (resume k err s))
          (Query cn sql ps k :: trace (resume k err s)).
Proof.
  intros E. unfold complete. rewrite E. cbn [outcome after trace].
  change (pending [Query cn sql ps k]) with [k]. by rewrite resume_all_one.
Qed.

Lemma complete_announcements (m : M unit) ok this s t n :
  m this = mkRun (Normal tt) s t ->
  pending t = repeat KEmit n ->
  truthy ok = false ->
  complete m ok this = mkRun (Normal tt) s t.
Proof.
  intros E Hp Hok. unfold complete. rewrite E. cbn [outcome after trace].
  rewrite Hp, resume_all_announcements by done. cbn. by rewrite app_nil_r.
Qed.

(** *** Connection life cycle *)

Lemma connect_run cb this :
  connect cb this
  = match _connection this with
    | Some _ => mkRun (Normal tt) this (report cb "connect" [] this)
    | None => mkRun (Normal tt) this [PoolConnect (_options this) cb]
    end.
Proof.
  unfold connect. rewrite bind_get. destruct (_connection this); [|done].
  rewrite _callbackOrEmit_run. by rewrite report_outcome_other.
Qed.

Lemma connect_cb_fail cb err cn done this :
  truthy err = true ->
  connect_cb cb err cn done this
  = mkRun (report_outcome cb "error" [err] this) this (report cb "error" [err] this).
Proof. intros H. unfold connect_cb. rewrite H. apply _callbackOrEmit_run. Qed.

Lemma connect_cb_ok cb ok cn done this :
  truthy ok = false ->
  let this' := mkPgEe (_channels this) done (_options this) (Some cn) (Some cn)
                      (_events this) in
  connect_cb cb ok cn done this
  = mkRun (Normal tt) this'
      ([ConnOn cn OnError; ConnOn cn OnNotification] ++ report cb "connect" [] this').
Proof.
  intros H this'. unfold connect_cb. rewrite H.
  erewrite bind_silent by reflexivity.
  erewrite bind_normal by reflexivity.
  rewrite _callbackOrEmit_run. cbn [outcome after trace].
  by rewrite report_outcome_other.
Qed.

Lemma removal_announcements_removed cn b c this :
  removal_announcements cn (announce_removed cn b c this).
Proof.
  unfold removal_announcements, announce_removed. destruct b; [|constructor].
  induction (removals c this) as [|n IH]; cbn; constructor; eauto.
Qed.

Lemma remove_keys_connected keys this cn :
  _connection this = Some cn ->
  outcome (remove_keys keys this) = Normal tt /\
  removal_announcements cn (trace (remove_keys keys this)).
Proof.
  revert this. induction keys as [|k keys IH]; intros this Hc.
  - split; [done|constructor].
  - rewrite remove_keys_cons. destruct (String.eqb k "removeListener").
    + erewrite bind_silent by reflexivity. by apply IH.
    + erewrite bind_normal by (by apply (removeAllListeners_of_connected _ _ cn)).
      cbn [outcome after trace].
      destruct (IH (detach true k this)) as (Ho & Ht);
        [by rewrite detach_connection|].
      split; [done|]. apply Forall_app. split; [|done].
      apply removal_announcements_removed.
Qed.

Lemma removeAll_all_connected this cn :
  _connection this = Some cn ->
  outcome (removeAllListeners None this) = Normal tt /\
  after (removeAllListeners None this) = set_events [] this /\
  removal_announcements cn (trace (removeAllListeners None this)) /\
  (listeners "removeListener" this = [] -> trace (removeAllListeners None this) = []).
Proof.
  intros Hc. unfold removeAllListeners. rewrite bind_get.
  destruct (listeners "removeListener" this) as [|g rl] eqn:Hrl.
  { repeat split; try done. constructor. }
  destruct (remove_keys_connected (own_keys (_events this)) this cn Hc) as (Ho1 & Ht1).
  pose proof (remove_keys_core (own_keys (_events this)) this) as Hk.
  destruct (remove_keys (own_keys (_events this)) this) as [o1 s1 t1] eqn:E1;
    cbn [outcome after trace] in *. subst o1.
  assert (_connection s1 = Some cn) as Hc1.
  { apply core_fields in Hk as (_ & _ & _ & H4 & _). by rewrite H4. }
  erewrite bind_normal by exact E1.
  erewrite bind_normal by (by apply (removeAllListeners_of_connected _ _ cn)).
  cbn [outcome after trace modify].
  split; [done|]. split; [|split; [|done]].
  - change (core_of (detach true "removeListener" s1) = core_of this).
    by rewrite detach_core.
  - apply Forall_app. split; [done|]. rewrite app_nil_r.
    apply removal_announcements_removed.
Qed.

Lemma close_not_connected this :
  _connection this = None -> close this = mkRun (Normal tt) this [].
Proof. intros H. unfold close. by rewrite bind_get, H. Qed.

Lemma close_release this :
  (if is_function (_done this) then apply (_done this) [] else ret tt) this
  = mkRun (Normal tt) this (release this).
Proof. unfold release. by destruct (_done this). Qed.

Lemma removeAll_all_run this cn :
  _connection this = Some cn ->
  removeAllListeners None this
  = mkRun (Normal tt) (set_events [] this) (trace (removeAllListeners None this)).
Proof.
  intros Hc. destruct (removeAll_all_connected this cn Hc) as (Ho & Ha & _).
  destruct (removeAllListeners None this) as [o s t]; cbn in *. by subst.
Qed.

Lemma tearDown_run this tc :
  _tearDownConnection this = Some tc ->
  tearDownConnection this
  = mkRun (Normal tt) this [ConnOff tc OnError; ConnOff tc OnNotification].
Proof. intros H. unfold tearDownConnection. by rewrite bind_get, H. Qed.

Lemma tearDown_missing this :
  _tearDownConnection this = None ->
  tearDownConnection this = mkRun (Throw (VError "not a function")) this [].
Proof. intros H. unfold tearDownConnection. by rewrite bind_get, H. Qed.

Lemma close_connected this cn tc :
  _connection this = Some cn ->
  _tearDownConnection this = Some tc ->
  close this
  = mkRun (Normal tt) (mkPgEe [] VNull (_options this) None (Some tc) [])
      (release this ++ trace (removeAllListeners None this)
       ++ [ConnOff tc OnError; ConnOff tc OnNotification]).
Proof.
  intros Hc Ht. unfold close. rewrite bind_get, Hc.
  erewrite bind_normal by apply close_release.
  erewrite bind_normal by (by apply (removeAll_all_run _ cn)).
  erewrite bind_normal by (by apply (tearDown_run _ tc)).
  cbn [outcome after trace modify set_events _options _tearDownConnection].
  by rewrite Ht, app_nil_r.
Qed.

Lemma close_without_tearDown this cn :
  _connection this = Some cn ->
  _tearDownConnection this = None ->
  after (close this) = set_events [] this.
Proof.
  intros Hc Ht. unfold close. rewrite bind_get, Hc.
  erewrite bind_normal by apply close_release.
  erewrite bind_normal by (by apply (removeAll_all_run _ cn)).
  erewrite bind_throw by (by apply tearDown_missing).
  done.
Qed.

Lemma close_channels this :
  _channels (after (close this)) = [] \/ _channels (after (close this)) = _channels this.
Proof.
  destruct (_connection this) as [cn|] eqn:Hc;
    [|right; by rewrite close_not_connected].
  destruct (_tearDownConnection this) as [tc|] eqn:Ht.
  - left. by rewrite (close_connected _ cn tc).
  - right. by rewrite (close_without_tearDown _ cn).
Qed.

Lemma close_done this :
  _done (after (close this)) = VNull \/ _done (after (close this)) = _done this.
Proof.
  destruct (_connection this) as [cn|] eqn:Hc;
    [|right; by rewrite close_not_connected].
  destruct (_tearDownConnection this) as [tc|] eqn:Ht.
  - left. by rewrite (close_connected _ cn tc).
  - right. by rewrite (close_without_tearDown _ cn).
Qed.

Lemma subscriptions_removal_announcements cn t :
  removal_announcements cn t -> subscriptions t = [] /\ calls t = [] /\ events_fired t = [].
Proof.
  induction 1 as [|e t [type ->] _ IH]; [done|].
  destruct IH as (H1 & H2 & H3). cbn in *. done.
Qed.

Lemma close_run this :
  wf this ->
  outcome (close this) = Normal tt /\
  subscriptions (trace (close this)) = [] /\
  (_connection this = None -> close this = mkRun (Normal tt) this []) /\
  (_connection this <> None ->
   _connection (after (close this)) = None /\
   _channels (after (close this)) = [] /\
   _events (after (close this)) = []).
Proof.
  intros Hwf. destruct (_connection this) as [cn|] eqn:Hc.
  - assert (_tearDownConnection this <> None) as Ht by (apply Hwf; congruence).
    destruct (_tearDownConnection this) as [tc|] eqn:Htc; [|done].
    rewrite (close_connected _ cn tc) by done. cbn [outcome after trace].
    split; [done|]. split; [|split; [done|done]].
    destruct (removeAll_all_connected this cn Hc) as (_ & _ & Hann & _).
    apply subscriptions_removal_announcements in Hann as (Hs & _).
    unfold subscriptions in *. rewrite !commands_app, !List.filter_app, Hs.
    unfold release. by destruct (_done this).
  - rewrite close_not_connected by done. by repeat split.
Qed.

(** *** Settled calls *)

Lemma complete_listen_ok a cb ok this cn :
  _connection this = Some cn ->
  channel_name a ∉ _channels this ->
  truthy ok = false ->
  let c := channel_name a in
  let this' := attach (listener_of a) c (set_channels (push (_channels this) c) this) in
  complete (listen a cb) ok this
  = mkRun (Normal tt) this'
      (Query cn (LISTEN c) None (KListen c (listener_of a) cb)
       :: announce_new cn (listener_of a) c this
       ++ report cb "listen" [VNull; VStr c] this').
Proof.
  intros Hc Hin Hok c this'.
  erewrite complete_issue by by apply listen_issue.
  unfold resume. rewrite (listen_cb_ok _ _ _ _ _ cn) by done. cbn [outcome after trace].
  by rewrite add_channel_absent.
Qed.

Lemma complete_unlisten_ok a cb ok this cn :
  _connection this = Some cn ->
  channel_name a ∈ _channels this ->
  truthy ok = false ->
  let c := channel_name a in
  let this' := detach (removeListeners_of a) c
                 (set_channels (splice1 (_channels this) (indexOf (_channels this) c))
                               this) in
  complete (unlisten a cb) ok this
  = mkRun (Normal tt) this'
      (Query cn (UNLISTEN c) None (KUnlisten c (removeListeners_of a) cb)
       :: announce_removed cn (removeListeners_of a) c this
       ++ report cb "unlisten" [VNull; VStr c] this').
Proof.
  intros Hc Hin Hok c this'.
  erewrite complete_issue by by apply unlisten_issue.
  unfold resume. rewrite (unlisten_cb_ok _ _ _ _ _ cn) by done.
  cbn [outcome after trace]. by rewrite remove_channel_present.
Qed.

Lemma complete_listen_known a cb ok this cn :
  _connection this = Some cn ->
  channel_name a ∈ _channels this ->
  truthy ok = false ->
  complete (listen a cb) ok this = listen a cb this.
Proof.
  intros Hc Hin Hok. rewrite (listen_known _ _ _ cn) by done.
  destruct (pending_announce_new cn (listener_of a) (channel_name a) this) as [n Hn].
  eapply complete_announcements; [by apply (listen_known _ _ _ cn)| |done].
  by rewrite pending_app, pending_report, app_nil_r, Hn.
Qed.

Lemma complete_unlisten_unknown a cb ok this cn :
  _connection this = Some cn ->
  channel_name a ∉ _channels this ->
  truthy ok = false ->
  complete (unlisten a cb) ok this = unlisten a cb this.
Proof.
  intros Hc Hin Hok. rewrite (unlisten_unknown _ _ _ cn) by done.
  destruct (pending_announce_removed cn (removeListeners_of a) (channel_name a) this)
    as [n Hn].
  eapply complete_announcements; [by apply (unlisten_unknown _ _ _ cn)| |done].
  by rewrite pending_app, pending_report, app_nil_r, Hn.
Qed.

(** *** What the announcements send *)

Lemma announce_new_quiet cn l c this :
  listeners "newListener" this = [] -> announce_new cn l c this = [].
Proof. intros H. unfold announce_new. rewrite H. by destruct (is_function l). Qed.

Lemma announce_removed_quiet cn b c this :
  listeners "removeListener" this = [] -> announce_removed cn b c this = [].
Proof.
  intros H. unfold announce_removed, removals. rewrite H. by destruct b.
Qed.

Lemma announce_new_plain cn l c this :
  is_function l = false -> announce_new cn l c this = [].
Proof. intros H. unfold announce_new. by rewrite H. Qed.

Lemma announce_removed_plain cn c this : announce_removed cn false c this = [].
Proof. reflexivity. Qed.

Lemma is_meta_new c : is_meta (pg_notify, Some [VStr "newListener"; JSON_stringify (VStr c)]).
Proof. exists "newListener", c. split; [by left|done]. Qed.

Lemma is_meta_removed c :
  is_meta (pg_notify, Some [VStr "removeListener"; JSON_stringify (VStr c)]).
Proof. exists "removeListener", c. split; [by right|done]. Qed.

Lemma commands_announce_new cn l c this :
  Forall is_meta (commands (announce_new cn l c this)).
Proof.
  unfold announce_new. destruct (is_function l); [|constructor].
  destruct (listeners "newListener" this); [constructor|].
  repeat constructor. apply is_meta_new.
Qed.

Lemma commands_repeat_announcement cn name c n :
  commands (repeat (announcement cn name c) n)
  = repeat (pg_notify, Some [VStr name; JSON_stringify (VStr c)]) n.
Proof. induction n as [|n IH]; [done|]. cbn [repeat]. by rewrite <- IH. Qed.

Lemma commands_announce_removed cn b c this :
  Forall is_meta (commands (announce_removed cn b c this)).
Proof.
  unfold announce_removed. destruct b; [|constructor].
  rewrite commands_repeat_announcement. apply Forall_forall.
  intros q Hq. apply list_elem_of_In, repeat_spec in Hq as ->. apply is_meta_removed.
Qed.

Lemma commands_removal_announcements cn t :
  removal_announcements cn t -> Forall is_meta (commands t).
Proof.
  unfold removal_announcements. induction 1 as [|e t [c ->] _ IH]; [constructor|].
  cbn. constructor; [apply is_meta_removed|exact IH].
Qed.

Lemma is_meta_not_subscription q : is_meta q -> String.eqb (fst q) pg_notify = true.
Proof. by intros (name & type & _ & ->). Qed.

(** *** Every command of the inherited methods is an announcement *)

Lemma commands_bind {A B} (P : string * option (list value) -> Prop)
    (m : M A) (f : A -> M B) this :
  Forall P (commands (trace (m this))) ->
  (forall a s, Forall P (commands (trace (f a s)))) ->
  Forall P (commands (trace (bind m f this))).
Proof.
  intros Hm Hf. unfold bind. specialize (Hf).
  destruct (m this) as [[a|e] s1 t1]; cbn [outcome after trace] in *; [|done].
  rewrite commands_app. apply Forall_app. split; [done|apply Hf].
Qed.

Lemma commands_announce name type this :
  name = "newListener" \/ name = "removeListener" ->
  Forall is_meta (commands (trace (announce name type this))).
Proof.
  intros Hname. unfold announce. rewrite bind_get.
  destruct (listeners name this); [constructor|].
  assert (is_str "error" (VStr name) = false) as He by (by destruct Hname as [->| ->]).
  destruct (_connection this) as [cn|] eqn:Hc.
  - rewrite (emit_issue _ _ _ cn) by done. cbn [trace]. rewrite commands_query.
    constructor; [|constructor]. exists name, type. by split.
  - rewrite emit_not_connected by done. cbn [trace]. rewrite commands_fired.
    constructor.
Qed.

Lemma commands_on ev l this : Forall is_meta (commands (trace (on ev l this))).
Proof.
  unfold on. destruct l; try constructor.
  apply commands_bind; [apply commands_announce; by left|]. intros; constructor.
Qed.

Lemma commands_removeListener_last type this :
  Forall is_meta (commands (trace (removeListener_last type this))).
Proof.
  unfold removeListener_last. apply commands_bind; [constructor|].
  intros. apply commands_announce. by right.
Qed.

Lemma commands_remove_each type n this :
  Forall is_meta (commands (trace (remove_each type n this))).
Proof.
  revert this. induction n as [|n IH]; intros this; [constructor|].
  rewrite remove_each_S. apply commands_bind; [apply commands_removeListener_last|].
  intros _ s. apply IH.
Qed.

Lemma commands_removeAllListeners_of type this :
  Forall is_meta (commands (trace (removeAllListeners_of type this))).
Proof.
  unfold removeAllListeners_of. rewrite bind_get.
  destruct (listeners "removeListener" this).
  - destruct (listeners type this); constructor.
  - apply commands_remove_each.
Qed.

Lemma commands_remove_keys keys this :
  Forall is_meta (commands (trace (remove_keys keys this))).
Proof.
  revert this. induction keys as [|key keys IH]; intros this; [constructor|].
  rewrite remove_keys_cons. apply commands_bind; [|intros _ s; apply IH].
  destruct (String.eqb key "removeListener"); [constructor|].
  apply commands_removeAllListeners_of.
Qed.

Lemma commands_removeAllListeners ev this :
  Forall is_meta (commands (trace (removeAllListeners ev this))).
Proof.
  unfold removeAllListeners. destruct ev as [type|];
    [apply commands_removeAllListeners_of|].
  rewrite bind_get. destruct (listeners "removeListener" this); [constructor|].
  apply commands_bind; [apply commands_remove_keys|]. intros _ s.
  apply commands_bind; [apply commands_removeAllListeners_of|]. intros; constructor.
Qed.

Lemma commands_callbackOrEmit cb ev args this :
  commands (trace (_callbackOrEmit cb ev args this)) = [].
Proof. rewrite _callbackOrEmit_run. apply commands_report. Qed.

Lemma commands_resume_fail k err this :
  truthy err = true -> commands (trace (resume k err this)) = [].
Proof.
  intros E. destruct k as [c l cb|c b cb|]; unfold resume.
  - rewrite listen_cb_fail by done. apply commands_report.
  - rewrite unlisten_cb_fail by done. apply commands_report.
  - rewrite emit_cb_fail by done. apply commands_fired.
Qed.

Lemma commands_resume k err this :
  Forall is_meta (commands (trace (resume k err this))).
Proof.
  destruct (truthy err) eqn:E; [by rewrite commands_resume_fail|].
  destruct k as [c l cb|c b cb|]; unfold resume.
  - unfold listen_cb. rewrite E, bind_get.
    apply commands_bind; [destruct (_ =? _); constructor|]. intros _ s1.
    apply commands_bind.
    + destruct (is_function l); [apply commands_on|constructor].
    + intros _ s2. rewrite commands_callbackOrEmit. constructor.
  - unfold unlisten_cb. rewrite E, bind_get.
    apply commands_bind; [destruct (negb _); constructor|]. intros _ s1.
    apply commands_bind.
    + destruct b; [apply commands_removeAllListeners|constructor].
    + intros _ s2. rewrite commands_callbackOrEmit. constructor.
  - rewrite emit_cb_ok by done. constructor.
Qed.

Lemma commands_resume_plain k err this :
  match k with
  | KListen _ l _ => is_function l = false \/ listeners "newListener" this = []
  | KUnlisten _ b _ => b = false \/ listeners "removeListener" this = []
  | KEmit => True
  end ->
  commands (trace (resume k err this)) = [].
Proof.
  intros Hk. destruct (truthy err) eqn:E; [by rewrite commands_resume_fail|].
  destruct k as [c l cb|c b cb|]; unfold resume.
  - unfold listen_cb. rewrite E, bind_get.
    erewrite bind_normal by apply listen_cb_push. cbn [app].
    assert ((if is_function l then on c l else ret tt) (add_channel c this)
            = mkRun (Normal tt) (attach l c (add_channel c this)) []) as Hon.
    { destruct Hk as [Hl|Hq].
      - rewrite Hl. unfold attach. destruct l; try done.
      - apply on_quiet. unfold listeners. by rewrite add_channel_events. }
    erewrite bind_normal by exact Hon. cbn [app trace].
    apply commands_callbackOrEmit.
  - unfold unlisten_cb. rewrite E, bind_get.
    erewrite bind_normal by apply unlisten_cb_splice. cbn [app].
    assert ((if b then removeAllListeners (Some c) else ret tt) (remove_channel c this)
            = mkRun (Normal tt) (detach b c (remove_channel c this)) []) as Hoff.
    { destruct Hk as [->|Hq]; [done|].
      apply removeAll_quiet. unfold listeners. by rewrite remove_channel_events. }
    erewrite bind_normal by exact Hoff. cbn [app trace].
    apply commands_callbackOrEmit.
  - by rewrite emit_cb_ok.
Qed.

(** * Properties of the specification *)

(** C1 (as the code has it). Subscribing to a channel that is not yet in
    the registry and, once that LISTEN has been answered successfully,
    subscribing to it again sends LISTEN once in total; afterwards the
    registry holds the coerced name once.  The second call sends no LISTEN
    (only the announcement that a ['newListener'] listener causes),
    attaches the listener it was given and reports success with the
    name. *)
Theorem listen_twice_one_command (a1 a2 cb1 cb2 ok : value) (this : PgEe) (cn : conn) :
  _connection this = Some cn ->
  name_safe a1 = true -> name_safe a2 = true ->
  channel_name a1 ∉ _channels this ->
  channel_name a2 = channel_name a1 ->
  truthy ok = false ->
  let c := channel_name a1 in
  let r1 := complete (listen a1 cb1) ok this in
  let r2 := listen a2 cb2 (after r1) in
  subscriptions (trace r1 ++ trace r2) = [(LISTEN c, None)] /\
  subscriptions (trace r2) = [] /\
  occurrences c (_channels (after r2)) = 1%nat /\
  after r2 = attach (listener_of a2) c (after r1) /\
  (forall f, listener_of a2 = VFun f ->
     listeners c (after r2) = listeners c (after r1) ++ [f]) /\
  outcome r2 = Normal tt /\
  trace r2 = announce_new cn (listener_of a2) c (after r1)
             ++ report cb2 "listen" [VNull; VStr c] (after r2).
Proof.
  intros Hc _ _ Hin Hname Hok c r1 r2. subst r1 r2.
  rewrite (complete_listen_ok _ _ _ _ cn) by done.
  cbn [after trace outcome]. fold c.
  set (s1 := attach (listener_of a1) c (set_channels (push (_channels this) c) this)).
  assert (_channels s1 = push (_channels this) c) as Hch
    by (unfold s1; by rewrite attach_channels).
  assert (_connection s1 = Some cn) as Hc1
    by (unfold s1; by rewrite attach_connection).
  assert (channel_name a2 ∈ _channels s1) as Hin2
    by (rewrite Hname, Hch; apply elem_of_push).
  rewrite (listen_known _ _ _ cn) by done. rewrite Hname. fold c.
  cbn [after trace outcome].
  assert (forall t, subscriptions
            (announce_new cn (listener_of a2) c s1
             ++ report cb2 "listen" [VNull; VStr c] t) = []) as Hsub2.
  { intros t. by rewrite subscriptions_app, subscriptions_announce_new,
      subscriptions_report. }
  split; [|split; [|split; [|split; [|split; [|split]]]]]; try done.
  - rewrite subscriptions_app, Hsub2, subscriptions_cons, subscriptions_app,
      subscriptions_announce_new, subscriptions_report, subscriptions_LISTEN.
    reflexivity.
  - rewrite attach_channels, Hch. by apply occurrences_push.
  - intros f Hf. rewrite Hf, listeners_attach. by case_decide.
Qed.

(** Two LISTEN callbacks for the same channel landing one after the other:
    the first inserts, the second finds the name and inserts nothing. *)
Lemma listen_callbacks_settle c la lb cba cbb ok this cn :
  _connection this = Some cn ->
  c ∉ _channels this ->
  truthy ok = false ->
  exists s1 s2,
    resume_all [KListen c la cba; KListen c lb cbb] ok this
    = mkRun (Normal tt) s2
        ((announce_new cn la c this ++ report cba "listen" [VNull; VStr c] s1)
         ++ announce_new cn lb c s1 ++ report cbb "listen" [VNull; VStr c] s2) /\
    occurrences c (_channels s1) = 1%nat /\
    occurrences c (_channels s2) = 1%nat.
Proof.
  intros Hc Hin Hok.
  set (s1 := attach la c (add_channel c this)).
  assert (_channels s1 = push (_channels this) c) as Hch1.
  { unfold s1. by rewrite attach_channels, add_channel_absent. }
  assert (c ∈ _channels s1) as Hin1 by (rewrite Hch1; apply elem_of_push).
  assert (_connection s1 = Some cn) as Hc1.
  { unfold s1. by rewrite attach_connection, add_channel_connection. }
  exists s1, (attach lb c s1). split; [|split].
  - erewrite resume_all_two by (unfold resume; by apply (listen_cb_ok _ _ _ _ _ cn)).
    unfold resume. rewrite (listen_cb_ok _ _ _ _ _ cn) by done.
    cbn [outcome after trace]. by rewrite add_channel_present.
  - rewrite Hch1. by apply occurrences_push.
  - rewrite attach_channels, Hch1. by apply occurrences_push.
Qed.

(** Two UNLISTEN callbacks for the same channel: the first removes the
    name, the second finds it gone and removes nothing. *)
Lemma unlisten_callbacks_settle c ba bb cba cbb ok this cn :
  _connection this = Some cn ->
  occurrences c (_channels this) = 1%nat ->
  truthy ok = false ->
  exists s1 s2,
    resume_all [KUnlisten c ba cba; KUnlisten c bb cbb] ok this
    = mkRun (Normal tt) s2
        ((announce_removed cn ba c this ++ report cba "unlisten" [VNull; VStr c] s1)
         ++ announce_removed cn bb c s1 ++ report cbb "unlisten" [VNull; VStr c] s2) /\
    (c ∉ _channels s1) /\
    (c ∉ _channels s2).
Proof.
  intros Hc Hocc Hok.
  assert (c ∈ _channels this) as Hin by (apply occurrences_present; lia).
  set (s1 := detach ba c (remove_channel c this)).
  assert (c ∉ _channels s1) as Hnin1.
  { unfold s1. rewrite detach_channels, remove_channel_present by done. simpl.
    apply occurrences_absent. rewrite occurrences_splice by done. lia. }
  assert (_connection s1 = Some cn) as Hc1.
  { unfold s1. by rewrite detach_connection, remove_channel_connection. }
  exists s1, (detach bb c s1). split; [|split].
  - erewrite resume_all_two by (unfold resume; by apply (unlisten_cb_ok _ _ _ _ _ cn)).
    unfold resume. rewrite (unlisten_cb_ok _ _ _ _ _ cn) by done.
    cbn [outcome after trace]. by rewrite remove_channel_absent.
  - done.
  - by rewrite detach_channels.
Qed.

(** C2. Two [listen] calls for one channel made before either LISTEN is
    answered both report success with that name, whichever answer lands
    first, and the registry holds the name once at each report and at the
    end; two such [unlisten] calls both report success and the registry is
    without the name.  No error is reported in either race: besides the
    two commands and the two reports the run holds only the announcements
    that listeners of ['newListener'] or ['removeListener'] cause. *)
Theorem concurrent_calls_settle
    (a1 a2 cb1 cb2 ok : value) (swap : bool) (this : PgEe) (cn : conn) :
  _connection this = Some cn ->
  name_safe a1 = true -> name_safe a2 = true ->
  channel_name a2 = channel_name a1 ->
  truthy ok = false ->
  let c := channel_name a1 in
  (c ∉ _channels this ->
   let r := race (listen a1 cb1) (listen a2 cb2) swap ok this in
   exists s1 s2,
     outcome r = Normal tt /\ after r = s2 /\
     occurrences c (_channels s1) = 1%nat /\
     occurrences c (_channels s2) = 1%nat /\
     trace r
     = [Query cn (LISTEN c) None (KListen c (listener_of a1) cb1);
        Query cn (LISTEN c) None (KListen c (listener_of a2) cb2)]
       ++ (if swap
           then (announce_new cn (listener_of a2) c this
                 ++ report cb2 "listen" [VNull; VStr c] s1)
                ++ announce_new cn (listener_of a1) c s1
                ++ report cb1 "listen" [VNull; VStr c] s2
           else (announce_new cn (listener_of a1) c this
                 ++ report cb1 "listen" [VNull; VStr c] s1)
                ++ announce_new cn (listener_of a2) c s1
                ++ report cb2 "listen" [VNull; VStr c] s2)) /\
  (occurrences c (_channels this) = 1%nat ->
   let r := race (unlisten a1 cb1) (unlisten a2 cb2) swap ok this in
   exists s1 s2,
     outcome r = Normal tt /\ after r = s2 /\
     (c ∉ _channels s1) /\
     (c ∉ _channels s2) /\
     trace r
     = [Query cn (UNLISTEN c) None (KUnlisten c (removeListeners_of a1) cb1);
        Query cn (UNLISTEN c) None (KUnlisten c (removeListeners_of a2) cb2)]
       ++ (if swap
           then (announce_removed cn (removeListeners_of a2) c this
                 ++ report cb2 "unlisten" [VNull; VStr c] s1)
                ++ announce_removed cn (removeListeners_of a1) c s1
                ++ report cb1 "unlisten" [VNull; VStr c] s2
           else (announce_removed cn (removeListeners_of a1) c this
                 ++ report cb1 "unlisten" [VNull; VStr c] s1)
                ++ announce_removed cn (removeListeners_of a2) c s1
                ++ report cb2 "unlisten" [VNull; VStr c] s2)).
Proof.
  intros Hc _ _ Hname Hok c. split.
  - intros Hin r. subst r. unfold race.
    rewrite (listen_issue a1 cb1 this cn) by done. cbn [outcome after trace].
    rewrite (listen_issue a2 cb2 this cn) by (by rewrite ?Hname).
    cbn [outcome after trace]. rewrite Hname. fold c.
    change (pending [Query cn (LISTEN c) None (KListen c (listener_of a1) cb1)]
            ++ pending [Query cn (LISTEN c) None (KListen c (listener_of a2) cb2)])
      with [KListen c (listener_of a1) cb1; KListen c (listener_of a2) cb2].
    destruct swap.
    + change (reverse [KListen c (listener_of a1) cb1; KListen c (listener_of a2) cb2])
        with [KListen c (listener_of a2) cb2; KListen c (listener_of a1) cb1].
      destruct (listen_callbacks_settle c (listener_of a2) (listener_of a1)
                  cb2 cb1 ok this cn Hc Hin Hok) as (s1 & s2 & E & H1 & H2).
      exists s1, s2. rewrite E. by cbn [outcome after trace].
    + destruct (listen_callbacks_settle c (listener_of a1) (listener_of a2)
                  cb1 cb2 ok this cn Hc Hin Hok) as (s1 & s2 & E & H1 & H2).
      exists s1, s2. rewrite E. by cbn [outcome after trace].
  - intros Hocc r. subst r. unfold race.
    assert (c ∈ _channels this) as Hin by (apply occurrences_present; lia).
    rewrite (unlisten_issue a1 cb1 this cn) by done. cbn [outcome after trace].
    rewrite (unlisten_issue a2 cb2 this cn) by (by rewrite ?Hname).
    cbn [outcome after trace]. rewrite Hname. fold c.
    change (pending [Query cn (UNLISTEN c) None (KUnlisten c (removeListeners_of a1) cb1)]
            ++ pending [Query cn (UNLISTEN c) None
                          (KUnlisten c (removeListeners_of a2) cb2)])
      with [KUnlisten c (removeListeners_of a1) cb1;
            KUnlisten c (removeListeners_of a2) cb2].
    destruct swap.
    + change (reverse [KUnlisten c (removeListeners_of a1) cb1;
                       KUnlisten c (removeListeners_of a2) cb2])
        with [KUnlisten c (removeListeners_of a2) cb2;
              KUnlisten c (removeListeners_of a1) cb1].
      destruct (unlisten_callbacks_settle c (removeListeners_of a2)
                  (removeListeners_of a1) cb2 cb1 ok this cn Hc Hocc Hok)
        as (s1 & s2 & E & H1 & H2).
      exists s1, s2. rewrite E. by cbn [outcome after trace].
    + destruct (unlisten_callbacks_settle c (removeListeners_of a1)
                  (removeListeners_of a2) cb1 cb2 ok this cn Hc Hocc Hok)
        as (s1 & s2 & E & H1 & H2).
      exists s1, s2. rewrite E. by cbn [outcome after trace].
Qed.

(** C3. When the LISTEN or UNLISTEN command fails, the error goes to the
    callback or, without one, to a fired ['error'] event, and the instance
    (registry and listener table) is exactly what it was before the call;
    wherever the failure lands, the callback changes nothing. *)
Theorem command_failure_changes_nothing (a cb err : value) (this : PgEe) (cn : conn) :
  _connection this = Some cn ->
  truthy err = true ->
  let c := channel_name a in
  (c ∉ _channels this ->
   let r := complete (listen a cb) err this in
   after r = this /\
   trace r = Query cn (LISTEN c) None (KListen c (listener_of a) cb)
             :: report cb "error" [err] this) /\
  (c ∈ _channels this ->
   let r := complete (unlisten a cb) err this in
   after r = this /\
   trace r = Query cn (UNLISTEN c) None (KUnlisten c (removeListeners_of a) cb)
             :: report cb "error" [err] this) /\
  (forall k this', after (resume k err this') = this').
Proof.
  intros Hc Herr c. repeat split.
  - erewrite complete_issue by by apply listen_issue.
    unfold resume. by rewrite listen_cb_fail.
  - erewrite complete_issue by by apply listen_issue.
    unfold resume. by rewrite listen_cb_fail.
  - erewrite complete_issue by by apply unlisten_issue.
    unfold resume. by rewrite unlisten_cb_fail.
  - erewrite complete_issue by by apply unlisten_issue.
    unfold resume. by rewrite unlisten_cb_fail.
  - intros [ch l cb'|ch b cb'|] this'; unfold resume.
    + by rewrite listen_cb_fail.
    + by rewrite unlisten_cb_fail.
    + by rewrite emit_cb_fail.
Qed.

(** One subscribe/unsubscribe round trip: LISTEN and UNLISTEN, registry
    restored; anything else sent announces a registration or a removal. *)
Lemma listen_unlisten_round a cb1 cb2 ok this cn :
  _connection this = Some cn ->
  channel_name a ∉ _channels this ->
  truthy ok = false ->
  let c := channel_name a in
  exists this' t,
    (complete (listen a cb1) ok ;; complete (unlisten a cb2) ok)%js this
    = mkRun (Normal tt) this' t /\
    _connection this' = Some cn /\
    _channels this' = _channels this /\
    subscriptions t = [(LISTEN c, None); (UNLISTEN c, None)] /\
    Forall (fun q => q = (LISTEN c, None) \/ q = (UNLISTEN c, None) \/ is_meta q)
           (commands t) /\
    (listeners "newListener" this = [] -> listeners "removeListener" this = [] ->
     c <> "newListener" -> c <> "removeListener" ->
     commands t = [(LISTEN c, None); (UNLISTEN c, None)] /\
     listeners "newListener" this' = [] /\ listeners "removeListener" this' = []).
Proof.
  intros Hc Hin Hok c.
  set (s1 := attach (listener_of a) c (set_channels (push (_channels this) c) this)).
  assert (_channels s1 = push (_channels this) c) as Hch1
    by (unfold s1; by rewrite attach_channels).
  assert (_connection s1 = Some cn) as Hc1
    by (unfold s1; by rewrite attach_connection).
  assert (channel_name a ∈ _channels s1) as Hin1
    by (rewrite Hch1; apply elem_of_push).
  eexists _, _. split; [|split; [|split; [|split; [|split]]]].
  - erewrite bind_normal by by apply (complete_listen_ok _ _ _ _ cn).
    fold c s1. rewrite (complete_unlisten_ok _ _ _ _ cn) by done.
    cbn [outcome after trace]. reflexivity.
  - by rewrite detach_connection.
  - rewrite detach_channels. simpl. fold c. rewrite Hch1. by apply splice_push.
  - rewrite subscriptions_app, subscriptions_cons, subscriptions_app,
      subscriptions_announce_new, subscriptions_report, subscriptions_LISTEN.
    rewrite subscriptions_cons, subscriptions_app, subscriptions_announce_removed,
      subscriptions_report, subscriptions_UNLISTEN.
    reflexivity.
  - rewrite commands_app. apply Forall_app. split.
    + change (commands (?q :: ?t)) with (commands [q] ++ commands t).
      rewrite commands_app, commands_report, app_nil_r.
      apply Forall_app. split; [repeat constructor; by left|].
      eapply Forall_impl; [apply commands_announce_new|]. intros q Hq. by right; right.
    + change (commands (?q :: ?t)) with (commands [q] ++ commands t).
      rewrite commands_app, commands_report, app_nil_r.
      apply Forall_app. split; [repeat constructor; by right; left|].
      eapply Forall_impl; [apply commands_announce_removed|]. intros q Hq.
      by right; right.
  - intros Hn Hr Hcn Hcr.
    assert (listeners "newListener" s1 = []) as Hn1.
    { unfold s1. rewrite listeners_attach. by case_decide. }
    assert (listeners "removeListener" s1 = []) as Hr1.
    { unfold s1. rewrite listeners_attach. by case_decide. }
    rewrite announce_new_quiet, announce_removed_quiet by done.
    split; [|split].
    + rewrite commands_app. cbn [app].
      by rewrite !commands_query, !commands_report.
    + rewrite listeners_detach, listeners_set_channels.
      destruct (removeListeners_of a); [|done]. by case_decide.
    + rewrite listeners_detach, listeners_set_channels.
      destruct (removeListeners_of a); [|done]. by case_decide.
Qed.

(** C6 (as the code has it). From a registry without the channel, listen,
    unlisten, listen, unlisten, each settled before the next, leaves the
    registry as it was at the start (empty if it was empty) and sends LISTEN
    and UNLISTEN four times in all: LISTEN, UNLISTEN, LISTEN, UNLISTEN.
    Any other command of the run is a [pg_notify] announcing a registration
    or a removal to a listener of ['newListener'] or ['removeListener'];
    when neither event has a listener and the channel is neither, the four
    commands are all the run sends. *)
Theorem listen_unlisten_twice_four_commands
    (a cb1 cb2 cb3 cb4 ok : value) (this : PgEe) (cn : conn) :
  _connection this = Some cn ->
  name_safe a = true ->
  channel_name a ∉ _channels this ->
  truthy ok = false ->
  let c := channel_name a in
  let r := listen_unlisten_twice a cb1 cb2 cb3 cb4 ok this in
  outcome r = Normal tt /\
  _channels (after r) = _channels this /\
  (_channels this = [] -> _channels (after r) = []) /\
  subscriptions (trace r)
  = [(LISTEN c, None); (UNLISTEN c, None); (LISTEN c, None); (UNLISTEN c, None)] /\
  Forall (fun q => q = (LISTEN c, None) \/ q = (UNLISTEN c, None) \/ is_meta q)
         (commands (trace r)) /\
  (listeners "newListener" this = [] -> listeners "removeListener" this = [] ->
   c <> "newListener" -> c <> "removeListener" ->
   commands (trace r)
   = [(LISTEN c, None); (UNLISTEN c, None); (LISTEN c, None); (UNLISTEN c, None)]).
Proof.
  intros Hc _ Hin Hok c r.
  destruct (listen_unlisten_round a cb1 cb2 ok this cn Hc Hin Hok)
    as (s2 & t2 & E2 & Hc2 & Hch2 & Hsub2 & Hall2 & Hq2).
  assert (channel_name a ∉ _channels s2) as Hin2 by by rewrite Hch2.
  destruct (listen_unlisten_round a cb3 cb4 ok s2 cn Hc2 Hin2 Hok)
    as (s4 & t4 & E4 & Hc4 & Hch4 & Hsub4 & Hall4 & Hq4).
  assert (r = mkRun (Normal tt) s4 (t2 ++ t4)) as ->.
  { subst r. unfold listen_unlisten_twice.
    unfold bind in E2 |- *.
    destruct (complete (listen a cb1) ok this) as [[[]|e1] u1 v1];
      cbn [outcome after trace] in *; [|discriminate].
    destruct (complete (unlisten a cb2) ok u1) as [[[]|e2] u2 v2];
      cbn [outcome after trace] in *; [|discriminate].
    injection E2 as -> <-.
    fold (bind (complete (listen a cb3) ok) (fun _ => complete (unlisten a cb4) ok) s2).
    rewrite E4. cbn [outcome after trace]. by rewrite app_assoc. }
  cbn [outcome after trace]. split; [|split; [|split; [|split; [|split]]]].
  - done.
  - congruence.
  - intros H0. congruence.
  - rewrite subscriptions_app, Hsub2, Hsub4. reflexivity.
  - rewrite commands_app. apply Forall_app. by split.
  - intros Hn Hr Hcn Hcr.
    destruct (Hq2 Hn Hr Hcn Hcr) as (Hcmd2 & Hn2 & Hr2).
    destruct (Hq4 Hn2 Hr2 Hcn Hcr) as (Hcmd4 & _).
    rewrite commands_app, Hcmd2, Hcmd4. reflexivity.
Qed.

(** C7. Without a live connection, [listen], [unlisten] and [emit] of a
    non-error event send no database command, leave the instance (registry
    and listener table) as it was, and deliver the not-connected error to
    the callback if one was given, otherwise as a fired ['error'] event. *)
Theorem not_connected_reported (a cb ev m : value) (this : PgEe) :
  _connection this = None ->
  (let r := listen a cb this in
   after r = this /\ commands (trace r) = [] /\
   trace r = report cb "error" [not_connected] this) /\
  (let r := unlisten a cb this in
   after r = this /\ commands (trace r) = [] /\
   trace r = report cb "error" [not_connected] this) /\
  (is_str "error" ev = false ->
   let r := emit ev m this in
   after r = this /\ commands (trace r) = [] /\
   trace r = fired "error" [not_connected] this).
Proof.
  intros Hc. repeat split.
  - by rewrite listen_not_connected.
  - rewrite listen_not_connected by done. apply commands_report.
  - by rewrite listen_not_connected.
  - by rewrite unlisten_not_connected.
  - rewrite unlisten_not_connected by done. apply commands_report.
  - by rewrite unlisten_not_connected.
  - by rewrite emit_not_connected.
  - rewrite emit_not_connected by done. apply commands_fired.
  - by rewrite emit_not_connected.
Qed.

(** C8. [emit('error', m)] fires the local ['error'] event with [m] and
    sends no database command, whatever the connection state. *)
Theorem emit_error_is_local (m : value) (this : PgEe) :
  let r := emit (VStr "error") m this in
  trace r = fired "error" [m] this /\
  commands (trace r) = [] /\
  after r = this.
Proof.
  rewrite emit_error. cbn [outcome after trace]. split; [done|]. split; [|done].
  apply commands_fired.
Qed.

(** C9. While connected, [emit(e, m)] for [e] other than ['error'] sends
    exactly one command, [pg_notify] with [e] and the JSON text of [m];
    when that command fails only a local ['error'] event with the error is
    fired (no event named [e]); when it succeeds nothing is fired. *)
Theorem emit_notifies_once (e m err ok : value) (this this' : PgEe) (cn : conn) :
  _connection this = Some cn ->
  is_str "error" e = false ->
  truthy err = true ->
  truthy ok = false ->
  let r := emit e m this in
  outcome r = Normal tt /\
  after r = this /\
  trace r = [Query cn pg_notify (Some [e; JSON_stringify m]) KEmit] /\
  commands (trace r) = [(pg_notify, Some [e; JSON_stringify m])] /\
  (let rf := resume KEmit err this' in
   trace rf = fired "error" [err] this' /\
   after rf = this' /\
   forall ev args, Emitted ev args ∈ trace rf -> is_str ev e = false) /\
  (let rs := resume KEmit ok this' in
   trace rs = [] /\ after rs = this' /\ outcome rs = Normal tt).
Proof.
  intros Hc He Herr Hok. rewrite (emit_issue _ _ _ cn) by done.
  cbn [outcome after trace]. unfold resume.
  rewrite emit_cb_fail, emit_cb_ok by done. cbn [outcome after trace].
  repeat split; try done.
  intros ev args Hin. unfold fired in Hin.
  apply elem_of_cons in Hin as [Heq|Hin].
  - by injection Heq as -> ->.
  - apply list_elem_of_fmap in Hin as (f & Hf & _). discriminate.
Qed.

(** The handler on a payload that does not parse: the [finally] block
    fires the raw payload, then the pending exception goes on. *)
Lemma notification_raw_run (n : Notification) (this : PgEe) :
  JSON_parse (n_payload n) = None ->
  connectionOnNotification n this
  = mkRun (match fired_outcome (n_channel n) [VStr (n_payload n)] this with
           | Normal _ => Throw SyntaxError
           | Throw e => Throw e
           end)
          this (fired (n_channel n) [VStr (n_payload n)] this).
Proof.
  intros Hp.
  unfold connectionOnNotification, bind, try_finally, parse.
  rewrite Hp. unfold throw. cbn [outcome after trace].
  rewrite _emit_run. cbn [outcome after trace app].
  by destruct (fired_outcome (n_channel n) [VStr (n_payload n)] this) as [[]|e].
Qed.

(** C4 (what the code does). A notification whose payload does not parse
    is still delivered, raw, under its channel name and the instance is
    untouched; but the handler then completes by throwing: the decoding
    exception is pending across the [finally] block and leaves the handler
    (or the unhandled-error exception of the emit replaces it). *)
Theorem decode_failure_delivers_then_throws (n : Notification) (this : PgEe) :
  JSON_parse (n_payload n) = None ->
  let r := connectionOnNotification n this in
  trace r = fired (n_channel n) [VStr (n_payload n)] this /\
  after r = this /\
  (exists e, outcome r = Throw e) /\
  (fired_outcome (n_channel n) [VStr (n_payload n)] this = Normal tt ->
   outcome r = Throw SyntaxError).
Proof.
  intros Hp r. subst r. rewrite (notification_raw_run n this Hp).
  cbn [outcome after trace].
  destruct (fired_outcome (n_channel n) [VStr (n_payload n)] this) as [[]|e] eqn:E;
    repeat split; eauto; done.
Qed.

Lemma decode_success_delivers (n : Notification) (v : value) (this : PgEe) :
  JSON_parse (n_payload n) = Some v ->
  let r := connectionOnNotification n this in
  trace r = fired (n_channel n) [v] this /\
  after r = this /\
  outcome r = fired_outcome (n_channel n) [v] this.
Proof.
  intros Hp r. subst r.
  unfold connectionOnNotification, bind, try_finally, parse.
  rewrite Hp. unfold ret. cbn [outcome after trace].
  rewrite _emit_run. cbn [outcome after trace app].
  destruct (fired_outcome (n_channel n) [v] this) as [[]|e] eqn:E;
    cbn [outcome after trace]; by rewrite ?app_nil_r.
Qed.

(** ** Connection life cycle *)

(** The operations keep the tear-down closure installed. *)
Lemma wf_new options : wf (after (PgEe_new options)).
Proof. destruct options; cbn; unfold wf; cbn; congruence. Qed.

Lemma wf_resume k err this : wf this -> wf (after (resume k err this)).
Proof.
  intros Hwf. eapply wf_core; [apply resume_core|].
  destruct (truthy err); [done|].
  destruct k; [by apply wf_add_channel|by apply wf_remove_channel|done].
Qed.

Lemma wf_listen a cb this : wf this -> wf (after (listen a cb this)).
Proof. intros Hwf. eapply wf_core; [apply listen_core|done]. Qed.

Lemma wf_unlisten a cb this : wf this -> wf (after (unlisten a cb this)).
Proof. intros Hwf. eapply wf_core; [apply unlisten_core|done]. Qed.

Lemma wf_emit ev m this : wf this -> wf (after (emit ev m this)).
Proof. by rewrite emit_after. Qed.

Lemma wf_connect cb this : wf this -> wf (after (connect cb this)).
Proof. intros Hwf. rewrite connect_run. by destruct (_connection this). Qed.

Lemma wf_connect_cb cb err cn done this :
  wf this -> wf (after (connect_cb cb err cn done this)).
Proof.
  intros Hwf. destruct (truthy err) eqn:E.
  - by rewrite connect_cb_fail.
  - rewrite connect_cb_ok by done. unfold wf. cbn. congruence.
Qed.

Lemma wf_close this : wf this -> wf (after (close this)).
Proof.
  intros Hwf. destruct (close_run this Hwf) as (_ & _ & Hn & Hs).
  destruct (_connection this) as [cn|] eqn:Hc.
  - destruct Hs as (Hc' & _); [done|]. unfold wf. by rewrite Hc'.
  - by rewrite Hn.
Qed.

Lemma wf_on ev l this : wf this -> wf (after (on ev l this)).
Proof. intros Hwf. eapply wf_core; [apply on_core|done]. Qed.

Lemma wf_removeAllListeners ev this :
  wf this -> wf (after (removeAllListeners ev this)).
Proof. intros Hwf. eapply wf_core; [apply removeAllListeners_core|done]. Qed.


Lemma commands_notification n this :
  commands (trace (connectionOnNotification n this)) = [] /\
  exists payload, trace (connectionOnNotification n this)
                  = fired (n_channel n) [payload] this.
Proof.
  destruct (JSON_parse (n_payload n)) as [v|] eqn:Hp.
  - destruct (decode_success_delivers n v this Hp) as (Ht & _).
    rewrite Ht. split; [apply commands_fired|eauto].
  - rewrite (notification_raw_run n this Hp). cbn [trace].
    split; [apply commands_fired|eauto].
Qed.

Lemma commands_listen a cb this :
  Forall (fun q => q = (LISTEN (channel_name a), None) \/ is_meta q)
         (commands (trace (listen a cb this))).
Proof.
  destruct (_connection this) as [cn|] eqn:Hc.
  - destruct (decide (channel_name a ∈ _channels this)).
    + rewrite (listen_known _ _ _ cn) by done. cbn [trace].
      rewrite commands_app, commands_report, app_nil_r.
      eapply Forall_impl; [apply commands_announce_new|]. intros q Hq. by right.
    + rewrite (listen_issue _ _ _ cn) by done. cbn [trace].
      rewrite commands_query. constructor; [by left|constructor].
  - rewrite listen_not_connected by done. cbn [trace]. rewrite commands_report.
    constructor.
Qed.

Lemma commands_unlisten a cb this :
  Forall (fun q => q = (UNLISTEN (channel_name a), None) \/ is_meta q)
         (commands (trace (unlisten a cb this))).
Proof.
  destruct (_connection this) as [cn|] eqn:Hc.
  - destruct (decide (channel_name a ∈ _channels this)).
    + rewrite (unlisten_issue _ _ _ cn) by done. cbn [trace].
      rewrite commands_query. constructor; [by left|constructor].
    + rewrite (unlisten_unknown _ _ _ cn) by done. cbn [trace].
      rewrite commands_app, commands_report, app_nil_r.
      eapply Forall_impl; [apply commands_announce_removed|]. intros q Hq. by right.
  - rewrite unlisten_not_connected by done. cbn [trace]. rewrite commands_report.
    constructor.
Qed.

(** C10. Events that the library generates itself (result events, error
    events, routed notifications) go through the base emitter's [emit]:
    [_emit] and [_callbackOrEmit] leave only the fired event (or the
    callback) in the trace and send nothing, whatever the event is called;
    so do [connect], its pool callback, the connection handlers, every
    failed completion and the completion of [emit].  The only commands a
    successful LISTEN/UNLISTEN completion can send are the announcements
    that the inherited [on] and [removeAllListeners] make, through the
    public [emit], to listeners of ['newListener'] and ['removeListener']:
    none when no listener is attached or removed, or when those events
    have no listener.  [listen] and [unlisten] send only their own
    LISTEN/UNLISTEN besides such announcements.  The public [emit], given
    the same name while connected, does send [pg_notify]. *)
Theorem internal_events_bypass_notify (this : PgEe) :
  (forall ev m, trace (_emit ev m this) = fired ev [m] this) /\
  (forall cb ev args,
     trace (_callbackOrEmit cb ev args this) = report cb ev args this) /\
  (forall cb ev args,
     commands (fired ev args this) = [] /\ commands (report cb ev args this) = []) /\
  (forall cb, commands (trace (connect cb this)) = []) /\
  (forall cb err cn done, commands (trace (connect_cb cb err cn done this)) = []) /\
  (forall k err, truthy err = true -> commands (trace (resume k err this)) = []) /\
  (forall err, commands (trace (resume KEmit err this)) = []) /\
  (forall k err, Forall is_meta (commands (trace (resume k err this)))) /\
  (forall c l cb err,
     is_function l = false \/ listeners "newListener" this = [] ->
     commands (trace (resume (KListen c l cb) err this)) = []) /\
  (forall c b cb err,
     b = false \/ listeners "removeListener" this = [] ->
     commands (trace (resume (KUnlisten c b cb) err this)) = []) /\
  (forall n, commands (trace (connectionOnNotification n this)) = []) /\
  (forall err, trace (connectionOnError err this) = fired "error" [err] this) /\
  (forall a cb, name_safe a = true ->
     Forall (fun q => q = (LISTEN (channel_name a), None) \/ is_meta q)
            (commands (trace (listen a cb this)))) /\
  (forall a cb, name_safe a = true ->
     Forall (fun q => q = (UNLISTEN (channel_name a), None) \/ is_meta q)
            (commands (trace (unlisten a cb this)))) /\
  (forall ev m cn, _connection this = Some cn -> is_str "error" ev = false ->
     commands (trace (emit ev m this)) = [(pg_notify, Some [ev; JSON_stringify m])]).
Proof.
  split; [|split; [|split; [|split; [|split; [|split; [|split;
    [|split; [|split; [|split; [|split; [|split; [|split; [|split]]]]]]]]]]]]].
  - intros. by rewrite _emit_run.
  - intros. by rewrite _callbackOrEmit_run.
  - intros. split; [apply commands_fired|apply commands_report].
  - intros cb. rewrite connect_run.
    destruct (_connection this); [apply commands_report|done].
  - intros cb err cn done. destruct (truthy err) eqn:E.
    + rewrite connect_cb_fail by done. apply commands_report.
    + rewrite connect_cb_ok by done. cbn [trace]. rewrite commands_app.
      by rewrite commands_report.
  - intros k err. apply commands_resume_fail.
  - intros err. by apply commands_resume_plain.
  - intros k err. apply commands_resume.
  - intros c l cb err H. by apply commands_resume_plain.
  - intros c b cb err H. by apply commands_resume_plain.
  - intros n. apply commands_notification.
  - intros err. unfold connectionOnError. by rewrite _emit_run.
  - intros a cb _. apply commands_listen.
  - intros a cb _. apply commands_unlisten.
  - intros ev m cn Hc He. by rewrite (emit_issue _ _ _ cn).
Qed.

(** * Further properties *)

Lemma connect_after cb this : after (connect cb this) = this.
Proof. rewrite connect_run. by destruct (_connection this). Qed.

Lemma connect_cb_after cb err cn done this :
  after (connect_cb cb err cn done this)
  = if truthy err then this
    else mkPgEe (_channels this) done (_options this) (Some cn) (Some cn)
                (_events this).
Proof.
  destruct (truthy err) eqn:E.
  - by rewrite connect_cb_fail.
  - by rewrite connect_cb_ok.
Qed.

Lemma notification_after n this : after (connectionOnNotification n this) = this.
Proof.
  unfold connectionOnNotification, bind, try_finally, parse.
  destruct (JSON_parse (n_payload n)); unfold ret, throw; cbn [outcome after trace];
    rewrite _emit_run; cbn [outcome after trace];
    by destruct (fired_outcome _ _ _) as [[]|].
Qed.

Lemma connectionOnError_after err this : after (connectionOnError err this) = this.
Proof. unfold connectionOnError. by rewrite _emit_run. Qed.

Lemma core_channels s s' : core_of s = core_of s' -> _channels s = _channels s'.
Proof. intros H. by apply core_fields in H as (? & _). Qed.

Lemma core_done s s' : core_of s = core_of s' -> _done s = _done s'.
Proof. intros H. by apply core_fields in H as (_ & ? & _). Qed.

Lemma core_connection s s' : core_of s = core_of s' -> _connection s = _connection s'.
Proof. intros H. by apply core_fields in H as (_ & _ & _ & ? & _). Qed.

Lemma calls_announce_new cn l c this : calls (announce_new cn l c this) = [].
Proof.
  unfold announce_new. destruct (is_function l); [|done].
  by destruct (listeners "newListener" this).
Qed.

Lemma events_fired_announce_new cn l c this : events_fired (announce_new cn l c this) = [].
Proof.
  unfold announce_new. destruct (is_function l); [|done].
  by destruct (listeners "newListener" this).
Qed.

Lemma calls_announce_removed cn b c this : calls (announce_removed cn b c this) = [].
Proof.
  by destruct (subscriptions_removal_announcements cn _
                 (removal_announcements_removed cn b c this)) as (_ & ? & _).
Qed.

Lemma events_fired_announce_removed cn b c this :
  events_fired (announce_removed cn b c this) = [].
Proof.
  by destruct (subscriptions_removal_announcements cn _
                 (removal_announcements_removed cn b c this)) as (_ & _ & ?).
Qed.

Lemma calls_app t1 t2 : calls (t1 ++ t2) = calls t1 ++ calls t2.
Proof. unfold calls. apply omap_app. Qed.

Lemma events_fired_app t1 t2 : events_fired (t1 ++ t2) = events_fired t1 ++ events_fired t2.
Proof. unfold events_fired. apply omap_app. Qed.

(** What [close] leaves in the trace of a connected instance. *)
Lemma close_trace this cn :
  wf this ->
  _connection this = Some cn ->
  exists tc t,
    _tearDownConnection this = Some tc /\
    removal_announcements cn t /\
    (listeners "removeListener" this = [] -> t = []) /\
    close this
    = mkRun (Normal tt) (mkPgEe [] VNull (_options this) None (Some tc) [])
        (release this ++ t ++ [ConnOff tc OnError; ConnOff tc OnNotification]).
Proof.
  intros Hwf Hc.
  destruct (_tearDownConnection this) as [tc|] eqn:Htc;
    [|exfalso; apply Hwf; [by rewrite Hc|done]].
  destruct (removeAll_all_connected this cn Hc) as (_ & _ & Hann & Hq).
  exists tc, (trace (removeAllListeners None this)).
  split; [done|]. split; [done|]. split; [done|].
  by apply (close_connected _ cn).
Qed.

Lemma commands_release this : commands (release this) = [].
Proof. unfold release. by destruct (_done this). Qed.

Lemma commands_close this :
  wf this ->
  Forall is_meta (commands (trace (close this))) /\
  (listeners "removeListener" this = [] -> commands (trace (close this)) = []).
Proof.
  intros Hwf. destruct (_connection this) as [cn|] eqn:Hc.
  - destruct (close_trace this cn Hwf Hc) as (tc & t & _ & Hann & Hq & ->).
    cbn [trace]. rewrite !commands_app, commands_release. cbn [app].
    change (commands [ConnOff tc OnError; ConnOff tc OnNotification]) with
      (@nil (string * option (list value))).
    rewrite app_nil_r. split; [by apply (commands_removal_announcements cn)|].
    intros H. by rewrite (Hq H).
  - rewrite close_not_connected by done. by split; [constructor|].
Qed.

Lemma calls_close this :
  wf this -> _done this = VNull -> calls (trace (close this)) = [].
Proof.
  intros Hwf Hd. destruct (_connection this) as [cn|] eqn:Hc.
  - destruct (close_trace this cn Hwf Hc) as (tc & t & _ & Hann & _ & ->).
    cbn [trace]. rewrite !calls_app.
    apply subscriptions_removal_announcements in Hann as (_ & -> & _).
    unfold release. by rewrite Hd.
  - by rewrite close_not_connected.
Qed.

(** ** Invariants of every reachable instance *)

Lemma exec_invariant (P : PgEe -> Prop) :
  (forall o s, P s -> P (after (run_op o s))) ->
  forall ops s, P s -> P (exec ops s).
Proof.
  intros Hstep ops. induction ops as [|o ops IH]; intros s Hs; [done|].
  apply IH. by apply Hstep.
Qed.

Lemma run_op_NoDup o this :
  NoDup (_channels this) -> NoDup (_channels (after (run_op o this))).
Proof.
  intros H. destruct o; unfold run_op.
  - by rewrite connect_after.
  - rewrite connect_cb_after. by destruct (truthy err).
  - by rewrite (core_channels _ _ (listen_core _ _ _)).
  - by rewrite (core_channels _ _ (unlisten_core _ _ _)).
  - by rewrite emit_after.
  - destruct (close_channels this) as [-> | ->]; [apply NoDup_nil_2|done].
  - rewrite (core_channels _ _ (resume_core _ _ _)).
    destruct (truthy err); [done|].
    destruct k as [c l cb|c b cb|]; [| |done].
    + by apply add_channel_NoDup.
    + by apply remove_channel_NoDup.
  - by rewrite notification_after.
  - by rewrite connectionOnError_after.
  - by rewrite (core_channels _ _ (on_core _ _ _)).
  - by rewrite (core_channels _ _ (removeAllListeners_core _ _)).
Qed.

Lemma run_op_wf o this : wf this -> wf (after (run_op o this)).
Proof.
  intros H. destruct o; unfold run_op.
  - by apply wf_connect.
  - by apply wf_connect_cb.
  - by apply wf_listen.
  - by apply wf_unlisten.
  - by apply wf_emit.
  - by apply wf_close.
  - by apply wf_resume.
  - by rewrite notification_after.
  - by rewrite connectionOnError_after.
  - by apply wf_on.
  - by apply wf_removeAllListeners.
Qed.

Lemma wf_exec options ops : wf (exec ops (after (PgEe_new options))).
Proof. apply (exec_invariant wf); [intros o s; apply run_op_wf|apply wf_new]. Qed.

(** X1. Whatever sequence of calls, answers and events an instance goes
    through after construction, no channel name is ever in its registry
    twice. *)
Theorem registry_names_unique (options : conn + value) (ops : list op) :
  NoDup (_channels (exec ops (after (PgEe_new options)))).
Proof.
  apply (exec_invariant (fun s => NoDup (_channels s))).
  - intros o s. apply run_op_NoDup.
  - destruct options; cbn; apply NoDup_nil_2.
Qed.

(** X2. On every instance reachable after construction, [close] completes
    normally: a live connection always has its tear-down closure, so the
    call at index.js:166 never meets an undefined method.  [close] sends no
    LISTEN or UNLISTEN; the only commands it can send are the [pg_notify]
    announcements of the listeners it removes, made when ['removeListener']
    has a listener, and without such a listener it sends nothing. *)
Theorem close_never_throws (options : conn + value) (ops : list op) :
  let this := exec ops (after (PgEe_new options)) in
  outcome (close this) = Normal tt /\
  subscriptions (trace (close this)) = [] /\
  Forall is_meta (commands (trace (close this))) /\
  (listeners "removeListener" this = [] -> commands (trace (close this)) = []).
Proof.
  intros this.
  assert (wf this) as Hwf by apply wf_exec.
  destruct (close_run this Hwf) as (Ho & Hc & _).
  destruct (commands_close this Hwf) as (Hm & Hq). done.
Qed.

(** X3. An instance built around a caller's client never applies a release
    function: as long as no pool answer is delivered to it, [_done] stays
    null through every call, answer and event, and [close] applies no user
    function at all. *)
Theorem external_client_never_released (client : conn) (ops : list op) :
  forallb (fun o => negb (is_pool_answer o)) ops = true ->
  let this := exec ops (after (PgEe_new (inl client))) in
  _done this = VNull /\ calls (trace (close this)) = [].
Proof.
  intros Hops this.
  assert (_done this = VNull) as Hd.
  { subst this.
    assert (_done (after (PgEe_new (inl client))) = VNull) as H0 by reflexivity.
    revert H0. generalize (after (PgEe_new (inl client))).
    induction ops as [|o ops IH]; intros s Hs; [done|].
    cbn [forallb] in Hops. apply andb_prop in Hops as [Ho Hops].
    change (exec (o :: ops) s) with (exec ops (after (run_op o s))).
    apply IH; [done|].
    destruct o; unfold run_op; try discriminate Ho.
    - by rewrite connect_after.
    - by rewrite (core_done _ _ (listen_core _ _ _)).
    - by rewrite (core_done _ _ (unlisten_core _ _ _)).
    - by rewrite emit_after.
    - destruct (close_done s) as [-> | ->]; done.
    - rewrite (core_done _ _ (resume_core _ _ _)).
      destruct (truthy err); [done|].
      destruct k as [c l cb|c b cb|]; [| |done].
      + by rewrite add_channel_done.
      + by rewrite remove_channel_done.
    - by rewrite notification_after.
    - by rewrite connectionOnError_after.
    - by rewrite (core_done _ _ (on_core _ _ _)).
    - by rewrite (core_done _ _ (removeAllListeners_core _ _)). }
  split; [done|]. apply calls_close; [apply wf_exec|done].
Qed.

(** ** Subscriptions and listeners *)

(** X4. Unsubscribing from a channel that is not in the registry sends no
    UNLISTEN and reports success with the coerced name; the registry is
    unchanged and listeners are dropped only if [removeListeners] was set.
    Before the report the run holds only the announcements of the removed
    listeners, made when ['removeListener'] has a listener; otherwise it
    sends nothing. *)
Theorem unlisten_unknown_channel (u cb : value) (this : PgEe) (cn : conn) :
  _connection this = Some cn ->
  name_safe u = true ->
  channel_name u ∉ _channels this ->
  let c := channel_name u in
  let r := unlisten u cb this in
  outcome r = Normal tt /\
  subscriptions (trace r) = [] /\
  trace r = announce_removed cn (removeListeners_of u) c this
            ++ report cb "unlisten" [VNull; VStr c] (after r) /\
  (removeListeners_of u = false \/ listeners "removeListener" this = [] ->
   commands (trace r) = [] /\
   trace r = report cb "unlisten" [VNull; VStr c] (after r)) /\
  _channels (after r) = _channels this /\
  (removeListeners_of u = false -> after r = this) /\
  (removeListeners_of u = true ->
   listeners c (after r) = [] /\
   forall e, e <> c -> listeners e (after r) = listeners e this).
Proof.
  intros Hc _ Hin c r. subst r. rewrite (unlisten_unknown _ _ _ cn) by done.
  cbn [outcome after trace]. fold c.
  split; [done|]. split.
  { by rewrite subscriptions_app, subscriptions_announce_removed, subscriptions_report. }
  split; [done|]. split.
  { intros Hq.
    assert (announce_removed cn (removeListeners_of u) c this = []) as ->.
    { destruct Hq as [-> | Hq]; [done|by apply announce_removed_quiet]. }
    cbn [app]. split; [apply commands_report|done]. }
  split; [apply detach_channels|]. split.
  - by intros ->.
  - intros ->. split.
    + rewrite listeners_detach. by case_decide.
    + intros e He. rewrite listeners_detach. by case_decide.
Qed.

(** X5. The immediate part of [listen], [unlisten], [emit] and [connect]
    never changes the registry or the connection: the registry moves only
    when an answer to LISTEN/UNLISTEN lands, or on [close]. *)
Theorem immediate_part_keeps_registry (a cb ev m : value) (this : PgEe) :
  (_channels (after (listen a cb this)) = _channels this /\
   _connection (after (listen a cb this)) = _connection this) /\
  (_channels (after (unlisten a cb this)) = _channels this /\
   _connection (after (unlisten a cb this)) = _connection this) /\
  after (emit ev m this) = this /\
  after (connect cb this) = this.
Proof.
  split; [|split; [|split]].
  - split; [apply (core_channels _ _ (listen_core _ _ _))
           |apply (core_connection _ _ (listen_core _ _ _))].
  - split; [apply (core_channels _ _ (unlisten_core _ _ _))
           |apply (core_connection _ _ (unlisten_core _ _ _))].
  - apply emit_after.
  - apply connect_after.
Qed.

(** X6. A settled successful [listen] leaves the channel registered and
    appends the supplied listener exactly once to that channel's listeners
    (also when the channel was registered already, so repeated calls
    accumulate copies); without a listener the list is unchanged, and the
    listeners of other events are never touched. *)
Theorem listen_attaches_one_listener (a cb ok : value) (this : PgEe) (cn : conn) :
  _connection this = Some cn ->
  truthy ok = false ->
  let c := channel_name a in
  let r := complete (listen a cb) ok this in
  outcome r = Normal tt /\
  c ∈ _channels (after r) /\
  listeners c (after r)
  = listeners c this ++ match listener_of a with VFun f => [f] | _ => [] end /\
  (forall e, e <> c -> listeners e (after r) = listeners e this).
Proof.
  intros Hc Hok c r. subst r.
  destruct (decide (c ∈ _channels this)) as [Hin|Hnin].
  - rewrite (complete_listen_known _ _ _ _ cn), (listen_known _ _ _ cn) by done.
    cbn [outcome after]. fold c. split; [done|]. split.
    { by rewrite attach_channels. }
    split.
    + rewrite listeners_attach. by case_decide.
    + intros e He. rewrite listeners_attach. by case_decide.
  - rewrite (complete_listen_ok _ _ _ _ cn) by done.
    cbn [outcome after]. fold c. split; [done|]. split.
    { rewrite attach_channels. apply elem_of_push. }
    split.
    + rewrite listeners_attach. by case_decide.
    + intros e He. rewrite listeners_attach. by case_decide.
Qed.

(** X7. A settled successful [unlisten] on a duplicate-free registry leaves
    the channel out of the registry and every other channel in it.
    Listeners are kept unless [removeListeners] was set, in which case only
    that channel's listeners are removed. *)
Theorem unlisten_settles (u cb ok : value) (this : PgEe) (cn : conn) :
  _connection this = Some cn ->
  truthy ok = false ->
  NoDup (_channels this) ->
  let c := channel_name u in
  let r := complete (unlisten u cb) ok this in
  outcome r = Normal tt /\
  (c ∉ _channels (after r)) /\
  (forall x, x <> c -> x ∈ _channels (after r) <-> x ∈ _channels this) /\
  (removeListeners_of u = false -> _events (after r) = _events this) /\
  (removeListeners_of u = true -> listeners c (after r) = []) /\
  (forall e, e <> c -> listeners e (after r) = listeners e this).
Proof.
  intros Hc Hok Hnd c r. subst r.
  destruct (decide (c ∈ _channels this)) as [Hin|Hnin].
  - rewrite (complete_unlisten_ok _ _ _ _ cn) by done.
    cbn [outcome after]. fold c. rewrite detach_channels. cbn [_channels set_channels].
    split; [done|]. split; [|split; [|split; [|split]]].
    + apply occurrences_absent. rewrite occurrences_splice by done.
      by rewrite NoDup_occurrences.
    + intros x Hx. by apply elem_of_splice_other.
    + by intros ->.
    + intros ->. rewrite listeners_detach. by case_decide.
    + intros e He. rewrite listeners_detach.
      destruct (removeListeners_of u); [by case_decide|done].
  - rewrite (complete_unlisten_unknown _ _ _ _ cn), (unlisten_unknown _ _ _ cn) by done.
    cbn [outcome after]. fold c. rewrite detach_channels.
    split; [done|]. split; [done|]. split; [done|]. split; [|split].
    + by intros ->.
    + intros ->. rewrite listeners_detach. by case_decide.
    + intros e He. rewrite listeners_detach.
      destruct (removeListeners_of u); [by case_decide|done].
Qed.

(** ** Connection life cycle *)

(** X8. Once the pool has answered with a connection, the instance is
    connected and a further [connect] acquires nothing and installs no
    handler again: it only reports success. *)
Theorem connect_once_connected (cb cb2 ok done : value) (cn : conn) (this : PgEe) :
  truthy ok = false ->
  let r1 := connect_cb cb ok cn done this in
  let r2 := connect cb2 (after r1) in
  _connection (after r1) = Some cn /\
  _done (after r1) = done /\
  trace r1 = [ConnOn cn OnError; ConnOn cn OnNotification]
             ++ report cb "connect" [] (after r1) /\
  after r2 = after r1 /\
  outcome r2 = Normal tt /\
  trace r2 = report cb2 "connect" [] (after r1).
Proof.
  intros Hok r1 r2. subst r1 r2. rewrite connect_cb_ok by done.
  cbn [after trace]. rewrite connect_run. cbn [_connection]. done.
Qed.

(** X9. When the pool fails, the error is reported, the instance stays
    unconnected and unchanged, no handler is installed, and a later
    [connect] asks the pool again with the same options. *)
Theorem connect_failure_can_be_retried (cb cb2 err done : value) (cn : conn)
    (this : PgEe) :
  truthy err = true ->
  _connection this = None ->
  let r1 := connect_cb cb err cn done this in
  let r2 := connect cb2 (after r1) in
  after r1 = this /\
  trace r1 = report cb "error" [err] this /\
  trace r2 = [PoolConnect (_options this) cb2] /\
  after r2 = this.
Proof.
  intros Herr Hc r1 r2. subst r1 r2. rewrite connect_cb_fail by done.
  cbn [after trace]. rewrite connect_run, Hc. done.
Qed.

(** X10. Closing an instance whose connection came from the pool applies
    the release function exactly once, with no argument, and no other user
    function; it detaches the two handlers from that same connection, and
    resets the instance: empty registry, no listeners, no connection, no
    release function.  Between the release and the detaching the run holds
    only the announcements of the removed listeners, made when
    ['removeListener'] has a listener. *)
Theorem pooled_connection_released_on_close
    (cb ok : value) (d : fn) (cn : conn) (this : PgEe) :
  truthy ok = false ->
  let s := after (connect_cb cb ok cn (VFun d) this) in
  let r := close s in
  outcome r = Normal tt /\
  calls (trace r) = [(d, [])] /\
  (exists t, removal_announcements cn t /\
     trace r = [Call d []] ++ t ++ [ConnOff cn OnError; ConnOff cn OnNotification]) /\
  (listeners "removeListener" this = [] ->
   trace r = [Call d []; ConnOff cn OnError; ConnOff cn OnNotification]) /\
  after r = mkPgEe [] VNull (_options this) None (Some cn) [].
Proof.
  intros Hok s r. subst s r. rewrite connect_cb_ok by done. cbn [after].
  set (s := mkPgEe (_channels this) (VFun d) (_options this) (Some cn) (Some cn)
                   (_events this)).
  assert (wf s) as Hwf by (unfold wf, s; cbn; congruence).
  destruct (close_trace s cn Hwf eq_refl) as (tc & t & Htc & Hann & Hq & ->).
  injection Htc as <-. cbn [outcome after trace].
  change (release s) with [Call d []].
  split; [done|]. split; [|split; [|split]].
  - rewrite !calls_app.
    apply subscriptions_removal_announcements in Hann as (_ & -> & _). done.
  - by exists t.
  - intros H. by rewrite (Hq H).
  - done.
Qed.

(** X11. [close] is final and idempotent.  On an unconnected instance it
    does nothing at all, even if a release function is present.  After a
    [close] the instance is unconnected, a second [close] does nothing, and
    [listen], [unlisten] and [emit] only report the not-connected error. *)
Theorem close_is_final (a cb ev m : value) (this : PgEe) :
  wf this ->
  let s := after (close this) in
  (_connection this = None -> close this = mkRun (Normal tt) this []) /\
  _connection s = None /\
  close s = mkRun (Normal tt) s [] /\
  trace (listen a cb s) = report cb "error" [not_connected] s /\
  trace (unlisten a cb s) = report cb "error" [not_connected] s /\
  (is_str "error" ev = false ->
   trace (emit ev m s) = fired "error" [not_connected] s).
Proof.
  intros Hwf s.
  destruct (close_run this Hwf) as (_ & _ & Hn & Hs).
  assert (_connection s = None) as Hcs.
  { subst s. destruct (_connection this) eqn:Hc.
    - by apply Hs.
    - by rewrite Hn. }
  assert (wf s) as Hwfs by (by apply wf_close).
  destruct (close_run s Hwfs) as (_ & _ & Hn' & _).
  split; [done|]. split; [done|]. split; [by apply Hn'|].
  split; [by rewrite listen_not_connected|].
  split; [by rewrite unlisten_not_connected|].
  intros He. by rewrite emit_not_connected.
Qed.

(** ** Notifications *)

(** X12. A notification whose payload decodes is handed, decoded, to every
    listener of its channel in registration order, whether or not the
    channel is in the registry; the instance is unchanged and no command is
    sent.  With no listener nothing is applied: the event is dropped. *)
Theorem notification_routed_in_order (n : Notification) (v : value) (this : PgEe) :
  JSON_parse (n_payload n) = Some v ->
  let r := connectionOnNotification n this in
  after r = this /\
  commands (trace r) = [] /\
  events_fired (trace r) = [(n_channel n, [v])] /\
  calls (trace r) = map (fun f => (f, [v])) (listeners (n_channel n) this) /\
  (listeners (n_channel n) this = [] -> calls (trace r) = []) /\
  (n_channel n <> "error" -> outcome r = Normal tt).
Proof.
  intros Hp r. subst r.
  destruct (decode_success_delivers n v this Hp) as (Ht & Ha & Ho).
  rewrite Ht, Ha, Ho.
  pose proof (calls_fired (n_channel n) [v] this) as Hcalls.
  pose proof (events_fired_fired (n_channel n) [v] this) as Hev.
  split; [done|]. split; [apply commands_fired|]. split; [done|].
  split; [done|]. split.
  - intros Hl. by rewrite Hcalls, Hl.
  - intros Hne. apply fired_outcome_other. by apply String.eqb_neq.
Qed.

(** X13. Round trip through the database: while connected, [emit(ch, m)]
    applies no local listener itself and sends [pg_notify] with the encoded
    message; when the database echoes that payload on [ch] and the codec
    decodes what it encoded, each listener of [ch] receives [m]. *)
Theorem emit_notification_round_trip
    (ch text : string) (m : value) (this this' : PgEe) (cn : conn) :
  _connection this = Some cn ->
  ch <> "error" ->
  JSON_stringify m = VStr text ->
  JSON_parse text = Some m ->
  let r := emit (VStr ch) m this in
  let r' := connectionOnNotification (mkNotification ch text) this' in
  commands (trace r) = [(pg_notify, Some [VStr ch; VStr text])] /\
  calls (trace r) = [] /\
  events_fired (trace r) = [] /\
  calls (trace r') = map (fun f => (f, [m])) (listeners ch this') /\
  outcome r' = Normal tt.
Proof.
  intros Hc Hne Hs Hp r r'. subst r r'.
  assert (is_str "error" (VStr ch) = false) as He by (by apply String.eqb_neq).
  rewrite (emit_issue _ _ _ cn) by done. cbn [trace]. rewrite Hs.
  destruct (decode_success_delivers (mkNotification ch text) m this' Hp)
    as (Ht & _ & Ho).
  rewrite Ht, Ho. cbn [n_channel].
  split; [done|]. split; [done|]. split; [done|]. split; [apply calls_fired|].
  apply fired_outcome_other. by apply String.eqb_neq.
Qed.

(** ** Reporting and composition *)

Lemma unlisten_cb_ok_quiet c b cb ok this :
  listeners "removeListener" this = [] ->
  truthy ok = false ->
  let this' := detach b c (remove_channel c this) in
  unlisten_cb c b cb ok this
  = mkRun (Normal tt) this' (report cb "unlisten" [VNull; VStr c] this').
Proof.
  intros Hq H this'. unfold unlisten_cb. rewrite H, bind_get.
  erewrite bind_silent by apply unlisten_cb_splice.
  erewrite bind_silent;
    [|apply removeAll_quiet; unfold listeners; by rewrite remove_channel_events].
  rewrite _callbackOrEmit_run. by rewrite report_outcome_other.
Qed.


(** X14. With a callback function, [connect], [listen] and [unlisten]
    never fire an event and never throw: each result or error goes to the
    callback alone.  The same holds of the pool callback and of every
    completion that fails, that lands while the instance is connected, or
    that lands while neither ['newListener'] nor ['removeListener'] has a
    listener: the callback is applied exactly once and no event is fired,
    even when listeners for ['error'], ['listen'] or ['unlisten'] exist. *)
Theorem callback_replaces_events (cb : value) :
  is_function cb = true ->
  forall this,
  (forall a, _connection this = None \/ name_safe a = true ->
             outcome (listen a cb this) = Normal tt /\
             events_fired (trace (listen a cb this)) = []) /\
  (forall a, _connection this = None \/ name_safe a = true ->
             outcome (unlisten a cb this) = Normal tt /\
             events_fired (trace (unlisten a cb this)) = []) /\
  (outcome (connect cb this) = Normal tt /\
   events_fired (trace (connect cb this)) = []) /\
  (forall c l b err k, k = KListen c l cb \/ k = KUnlisten c b cb ->
     _connection this <> None \/ truthy err = true
     \/ (listeners "newListener" this = [] /\ listeners "removeListener" this = []) ->
     outcome (resume k err this) = Normal tt /\
     events_fired (trace (resume k err this)) = [] /\
     length (calls (trace (resume k err this))) = 1%nat) /\
  (forall err cn done,
     outcome (connect_cb cb err cn done this) = Normal tt /\
     events_fired (trace (connect_cb cb err cn done this)) = [] /\
     length (calls (trace (connect_cb cb err cn done this))) = 1%nat).
Proof.
  intros [f ->]%is_function_VFun this.
  split; [|split; [|split; [|split]]].
  - intros a _. destruct (_connection this) as [cn|] eqn:Hc.
    + destruct (decide (channel_name a ∈ _channels this)).
      * rewrite (listen_known _ _ _ cn) by done. cbn [outcome trace].
        by rewrite events_fired_app, events_fired_announce_new.
      * by rewrite (listen_issue _ _ _ cn).
    + by rewrite listen_not_connected.
  - intros a _. destruct (_connection this) as [cn|] eqn:Hc.
    + destruct (decide (channel_name a ∈ _channels this)).
      * by rewrite (unlisten_issue _ _ _ cn).
      * rewrite (unlisten_unknown _ _ _ cn) by done. cbn [outcome trace].
        by rewrite events_fired_app, events_fired_announce_removed.
    + by rewrite unlisten_not_connected.
  - rewrite connect_run. by destruct (_connection this).
  - intros c l b err k Hk Hcase. destruct (truthy err) eqn:E.
    { destruct Hk as [-> | ->]; unfold resume.
      - by rewrite listen_cb_fail.
      - by rewrite unlisten_cb_fail. }
    destruct Hcase as [Hc|[?|[Hn Hr]]]; [|done|].
    + destruct (_connection this) as [cn|] eqn:Hcn; [|done].
      destruct Hk as [-> | ->]; unfold resume.
      * rewrite (listen_cb_ok _ _ _ _ _ cn) by done. cbn [outcome trace].
        by rewrite events_fired_app, calls_app, events_fired_announce_new,
          calls_announce_new.
      * rewrite (unlisten_cb_ok _ _ _ _ _ cn) by done. cbn [outcome trace].
        by rewrite events_fired_app, calls_app, events_fired_announce_removed,
          calls_announce_removed.
    + destruct Hk as [-> | ->]; unfold resume.
      * by rewrite listen_cb_ok_quiet.
      * by rewrite unlisten_cb_ok_quiet.
  - intros err cn done. destruct (truthy err) eqn:E.
    + by rewrite connect_cb_fail.
    + by rewrite connect_cb_ok.
Qed.

(** X15. A failed LISTEN leaves no trace in the instance, so the same
    call made again sends the command again and, once answered, registers
    the channel.  The failed call sends LISTEN and nothing else; the
    second sends LISTEN and, if ['newListener'] has a listener and a
    listener is attached, the announcement of that registration. *)
Theorem failed_listen_can_be_retried
    (a cb1 cb2 err ok : value) (this : PgEe) (cn : conn) :
  _connection this = Some cn ->
  name_safe a = true ->
  channel_name a ∉ _channels this ->
  truthy err = true ->
  truthy ok = false ->
  let c := channel_name a in
  let r1 := complete (listen a cb1) err this in
  let r2 := complete (listen a cb2) ok (after r1) in
  after r1 = this /\
  commands (trace r1) = [(LISTEN c, None)] /\
  subscriptions (trace r2) = [(LISTEN c, None)] /\
  trace r2 = Query cn (LISTEN c) None (KListen c (listener_of a) cb2)
             :: announce_new cn (listener_of a) c this
             ++ report cb2 "listen" [VNull; VStr c] (after r2) /\
  _channels (after r2) = push (_channels this) c /\
  outcome r2 = Normal tt.
Proof.
  intros Hc _ Hin Herr Hok c r1 r2. subst r1 r2.
  erewrite complete_issue by by apply listen_issue.
  unfold resume. rewrite listen_cb_fail by done. cbn [after trace outcome].
  rewrite (complete_listen_ok _ _ _ _ cn) by done. cbn [after trace outcome].
  fold c. rewrite attach_channels. cbn [_channels set_channels].
  split; [done|]. split; [by rewrite commands_query, commands_report|].
  split; [|done].
  by rewrite subscriptions_cons, subscriptions_app, subscriptions_announce_new,
    subscriptions_report, subscriptions_LISTEN.
Qed.


(** X17. Names are compared in their coerced string form: a string names
    itself, [null] and [undefined] name ["null"] and ["undefined"], and an
    object names what its [channel] property names.  So a subscription
    made with any argument is undone by [unlisten] with any argument of the
    same coerced name, in particular the name reported to the callback:
    one LISTEN and one UNLISTEN are sent (and, to listeners of
    ['newListener'] and ['removeListener'], the announcements), and the
    registry is as before. *)
Theorem coerced_name_round_trip
    (a u cb1 cb2 ok : value) (this : PgEe) (cn : conn) :
  _connection this = Some cn ->
  name_safe a = true -> name_safe u = true ->
  channel_name a ∉ _channels this ->
  channel_name u = channel_name a ->
  truthy ok = false ->
  let c := channel_name a in
  let r1 := complete (listen a cb1) ok this in
  let r2 := complete (unlisten u cb2) ok (after r1) in
  channel_name (VStr c) = c /\
  channel_name VNull = "null" /\
  channel_name VUndefined = "undefined" /\
  (forall v rest, is_spec v = false ->
     channel_name (VObj (("channel", v) :: rest)) = channel_name v) /\
  subscriptions (trace r1 ++ trace r2) = [(LISTEN c, None); (UNLISTEN c, None)] /\
  trace r1 = Query cn (LISTEN c) None (KListen c (listener_of a) cb1)
             :: announce_new cn (listener_of a) c this
             ++ report cb1 "listen" [VNull; VStr c] (after r1) /\
  trace r2 = Query cn (UNLISTEN c) None (KUnlisten c (removeListeners_of u) cb2)
             :: announce_removed cn (removeListeners_of u) c (after r1)
             ++ report cb2 "unlisten" [VNull; VStr c] (after r2) /\
  _channels (after r2) = _channels this.
Proof.
  intros Hc _ _ Hin Hname Hok c r1 r2. subst r1 r2.
  split; [done|]. split; [done|]. split; [done|]. split.
  { intros v rest Hv. unfold channel_name. by rewrite Hv. }
  rewrite (complete_listen_ok _ _ _ _ cn) by done. cbn [after trace]. fold c.
  set (s1 := attach (listener_of a) c (set_channels (push (_channels this) c) this)).
  assert (_channels s1 = push (_channels this) c) as Hch1
    by (unfold s1; by rewrite attach_channels).
  assert (_connection s1 = Some cn) as Hc1
    by (unfold s1; by rewrite attach_connection).
  rewrite (complete_unlisten_ok _ _ _ _ cn)
    by (rewrite ?Hname, ?Hch1; done || apply elem_of_push).
  cbn [after trace]. rewrite Hname. fold c. split; [|split; [|split]].
  - rewrite subscriptions_app, subscriptions_cons_LISTEN, subscriptions_cons_UNLISTEN,
      !subscriptions_app, subscriptions_announce_new, subscriptions_announce_removed,
      !subscriptions_report.
    reflexivity.
  - done.
  - done.
  - rewrite detach_channels. cbn [_channels set_channels]. rewrite Hch1.
    by apply splice_push.
Qed.

(** X18. [close] does not cancel a command in flight: when the answer to
    a LISTEN sent before [close] lands afterwards, its callback still
    registers the channel, attaches the listener and reports success, on an
    instance that has no connection. *)
Theorem answer_after_close_still_lands
    (c : string) (l cb ok : value) (this : PgEe) :
  wf this ->
  _connection this <> None ->
  truthy ok = false ->
  let s := after (close this) in
  let r := resume (KListen c l cb) ok s in
  _channels s = [] /\
  _connection (after r) = None /\
  _channels (after r) = [c] /\
  listeners c (after r) = match l with VFun f => [f] | _ => [] end /\
  outcome r = Normal tt /\
  trace r = report cb "listen" [VNull; VStr c] (after r).
Proof.
  intros Hwf Hc Hok s r. subst r.
  destruct (close_run this Hwf) as (_ & _ & _ & Hs).
  destruct (Hs Hc) as (Hcs & Hchs & Hevs). fold s in Hcs, Hchs, Hevs.
  clearbody s.
  assert (forall e, listeners e s = []) as Hl
    by (intros e; unfold listeners; by rewrite Hevs).
  unfold resume. rewrite listen_cb_ok_quiet by done. cbn [outcome after trace].
  assert (c ∉ _channels s) as Hnin by (rewrite Hchs; apply not_elem_of_nil).
  split; [done|]. split; [|split; [|split]].
  - by rewrite attach_connection, add_channel_connection.
  - rewrite attach_channels, add_channel_absent by done.
    cbn [_channels set_channels]. by rewrite Hchs.
  - rewrite listeners_attach. case_decide; [|done].
    unfold listeners at 1. by rewrite add_channel_events, Hevs.
  - done.
Qed.

(** ** Announcements of the inherited emitter *)

Lemma add_channel_registered c this : c ∈ _channels (add_channel c this).
Proof.
  destruct (decide (c ∈ _channels this)).
  - by rewrite add_channel_present.
  - rewrite add_channel_absent by done. apply elem_of_push.
Qed.

(** [on] without a connection, while ['newListener'] has a listener: the
    announcement fires the not-connected error first. *)
Lemma on_not_connected ev f this :
  _connection this = None ->
  listeners "newListener" this <> [] ->
  on ev (VFun f) this
  = match fired_outcome "error" [not_connected] this with
    | Normal _ =>
        mkRun (Normal tt) (attach (VFun f) ev this) (fired "error" [not_connected] this)
    | Throw e => mkRun (Throw e) this (fired "error" [not_connected] this)
    end.
Proof.
  intros Hc Hl. unfold on.
  assert (announce "newListener" ev this
          = mkRun (fired_outcome "error" [not_connected] this) this
                  (fired "error" [not_connected] this)) as Hann.
  { unfold announce. rewrite bind_get.
    destruct (listeners "newListener" this); [done|].
    by apply emit_not_connected. }
  destruct (fired_outcome "error" [not_connected] this) as [[]|e] eqn:Ho.
  - erewrite bind_normal by exact Hann. unfold modify. cbn [outcome after trace].
    by rewrite app_nil_r.
  - by erewrite bind_throw by exact Hann.
Qed.

(** X19. Attaching a listener is announced through the public [emit]:
    when ['newListener'] has a listener, a [listen] on a registered channel
    that brings a listener sends one [pg_notify] on the channel
    ['newListener'] with the encoded channel name as payload, then
    attaches the listener and reports; the listeners of ['newListener']
    themselves are not applied. *)
Theorem registration_is_announced (a cb : value) (f : fn) (this : PgEe) (cn : conn) :
  _connection this = Some cn ->
  name_safe a = true ->
  channel_name a ∈ _channels this ->
  listener_of a = VFun f ->
  listeners "newListener" this <> [] ->
  let c := channel_name a in
  let r := listen a cb this in
  outcome r = Normal tt /\
  trace r = Query cn pg_notify (Some [VStr "newListener"; JSON_stringify (VStr c)]) KEmit
            :: report cb "listen" [VNull; VStr c] (after r) /\
  commands (trace r)
  = [(pg_notify, Some [VStr "newListener"; JSON_stringify (VStr c)])] /\
  calls (trace r) = calls (report cb "listen" [VNull; VStr c] (after r)) /\
  listeners c (after r) = listeners c this ++ [f].
Proof.
  intros Hc _ Hin Hf Hl c r. subst r. rewrite (listen_known _ _ _ cn) by done.
  cbn [outcome after trace]. fold c. rewrite Hf.
  assert (announce_new cn (VFun f) c this = [announcement cn "newListener" c]) as ->.
  { unfold announce_new. change (is_function (VFun f)) with true. cbv iota.
    by destruct (listeners "newListener" this). }
  cbn [app]. split; [done|]. split; [done|]. split; [|split].
  - unfold announcement. by rewrite commands_query, commands_report.
  - done.
  - rewrite listeners_attach. by case_decide.
Qed.

(** X20. An answer to LISTEN that lands when the connection is gone still
    registers the channel, but if it brings a listener while
    ['newListener'] has one, the announcement finds no connection and
    fires the not-connected ['error'] event.  With no ['error'] listener
    that error is thrown out of the completion: the listener is not
    attached and the callback is never applied.  With one, the completion
    goes on, attaches the listener and reports success. *)
Theorem late_answer_announcement_fails
    (c : string) (f : fn) (cb ok : value) (this : PgEe) :
  _connection this = None ->
  truthy ok = false ->
  listeners "newListener" this <> [] ->
  let r := resume (KListen c (VFun f) cb) ok this in
  c ∈ _channels (after r) /\
  commands (trace r) = [] /\
  (listeners "error" this = [] ->
   outcome r = Throw not_connected /\
   trace r = [Emitted "error" [not_connected]] /\
   listeners c (after r) = listeners c this) /\
  (listeners "error" this <> [] ->
   outcome r = Normal tt /\
   listeners c (after r) = listeners c this ++ [f] /\
   trace r = fired "error" [not_connected] this
             ++ report cb "listen" [VNull; VStr c] (after r)).
Proof.
  intros Hc Hok Hl r.
  split.
  { subst r. rewrite (core_channels _ _ (resume_core _ _ _)), Hok.
    apply add_channel_registered. }
  subst r. unfold resume, listen_cb. rewrite Hok, bind_get.
  erewrite bind_silent by apply listen_cb_push.
  set (s0 := add_channel c this).
  assert (_events s0 = _events this) as Hev by apply add_channel_events.
  assert (forall e, listeners e s0 = listeners e this) as Hls
    by (intros e; unfold listeners; by rewrite Hev).
  assert (_connection s0 = None) as Hc0
    by (unfold s0; by rewrite add_channel_connection).
  change (is_function (VFun f)) with true. cbv iota.
  assert (fired "error" [not_connected] s0 = fired "error" [not_connected] this) as Hfd
    by (unfold fired; by rewrite Hls).
  assert (fired_outcome "error" [not_connected] s0
          = fired_outcome "error" [not_connected] this) as Hfo
    by (unfold fired_outcome; by rewrite Hls).
  pose proof (on_not_connected c f s0 Hc0) as Hon.
  rewrite Hls, Hfd, Hfo in Hon. specialize (Hon Hl).
  destruct (listeners "error" this) as [|g gs] eqn:Herr.
  - assert (fired_outcome "error" [not_connected] this = Throw not_connected) as Ho
      by (unfold fired_outcome; by rewrite Herr).
    assert (fired "error" [not_connected] this = [Emitted "error" [not_connected]])
      as Ht by (unfold fired; by rewrite Herr).
    rewrite Ho, Ht in Hon. erewrite bind_throw by exact Hon.
    cbn [outcome after trace]. split; [done|]. split; [|done].
    intros _. by rewrite Hls.
  - assert (fired_outcome "error" [not_connected] this = Normal tt) as Ho
      by (unfold fired_outcome; by rewrite Herr).
    rewrite Ho in Hon. erewrite bind_normal by exact Hon.
    rewrite _callbackOrEmit_run. cbn [outcome after trace].
    split; [by rewrite commands_app, commands_fired, commands_report|].
    split; [done|]. intros _. split; [by apply report_outcome_other|].
    split; [|done].
    rewrite listeners_attach. case_decide; [|done]. by rewrite Hls.
Qed.

End Library.

(** * The theorems on concrete runs *)

Local Close Scope Z_scope.

Lemma listen_twice_one_command_witness :
  let r1 := complete JSON_stringify_small
              (listen ToString_plain JSON_stringify_small (VStr "foo") (VFun 1)) VNull
              watched in
  let r2 := listen ToString_plain JSON_stringify_small foo_spec (VFun 2) (after r1) in
  _connection watched = Some 1 /\
  name_safe (VStr "foo") = true /\ name_safe foo_spec = true /\
  subscriptions (trace r1 ++ trace r2) = [(LISTEN "foo", None)] /\
  occurrences "foo" (_channels (after r2)) = 1 /\
  listeners "foo" (after r2) = listeners "foo" (after r1) ++ [9] /\
  trace r2
  = [Query 1 pg_notify
       (Some [VStr "newListener"; JSON_stringify_small (VStr "foo")]) KEmit;
     Call 2 [VNull; VStr "foo"]].
Proof.
  intros r1 r2.
  assert (_connection watched = Some 1) as Hc by reflexivity.
  assert (channel_name ToString_plain (VStr "foo") ∉ _channels watched) as Hin
    by apply not_elem_of_nil.
  destruct (listen_twice_one_command ToString_plain JSON_stringify_small
              (VStr "foo") foo_spec (VFun 1) (VFun 2) VNull watched 1 Hc
              eq_refl eq_refl Hin eq_refl eq_refl)
    as (H1 & _ & H3 & _ & H5 & _ & H7).
  split; [exact Hc|]. split; [reflexivity|]. split; [reflexivity|].
  split; [exact H1|]. split; [exact H3|].
  split; [exact (H5 9 eq_refl)|exact H7].
Defined.

(** Counterexamples to C1 as stated, on a connected instance.  A second
    [listen('foo')] made before the first LISTEN is answered sends LISTEN
    again; so does one made after the first LISTEN has failed; and when
    ['foo'] is registered already, neither call sends it. *)
Lemma listen_twice_not_once :
  (let r := race JSON_stringify_small
              (listen ToString_plain JSON_stringify_small (VStr "foo") (VFun 1))
              (listen ToString_plain JSON_stringify_small (VStr "foo") (VFun 2))
              false VNull connected in
   commands (trace r) = [(LISTEN "foo", None); (LISTEN "foo", None)] /\
   length (commands (trace r)) <> 1) /\
  (let r1 := complete JSON_stringify_small
               (listen ToString_plain JSON_stringify_small (VStr "foo") (VFun 1))
               (VError "bar") connected in
   let r2 := complete JSON_stringify_small
               (listen ToString_plain JSON_stringify_small (VStr "foo") (VFun 2))
               VNull (after r1) in
   commands (trace r1 ++ trace r2) = [(LISTEN "foo", None); (LISTEN "foo", None)] /\
   length (commands (trace r1 ++ trace r2)) <> 1) /\
  (let this := after (complete JSON_stringify_small
                        (listen ToString_plain JSON_stringify_small (VStr "foo")
                           (VFun 1)) VNull connected) in
   let r1 := complete JSON_stringify_small
               (listen ToString_plain JSON_stringify_small (VStr "foo") (VFun 1))
               VNull this in
   let r2 := complete JSON_stringify_small
               (listen ToString_plain JSON_stringify_small (VStr "foo") (VFun 2))
               VNull (after r1) in
   _channels this = ["foo"] /\
   commands (trace r1 ++ trace r2) = [] /\
   length (commands (trace r1 ++ trace r2)) <> 1).
Proof.
  cbv zeta. split; [|split].
  - split; [reflexivity|discriminate].
  - split; [reflexivity|discriminate].
  - split; [reflexivity|]. split; [reflexivity|discriminate].
Qed.

Lemma concurrent_calls_settle_witness :
  let r := race JSON_stringify_small
             (listen ToString_plain JSON_stringify_small (VStr "foo") (VFun 1))
             (listen ToString_plain JSON_stringify_small foo_spec (VFun 2))
             true VNull watched in
  _connection watched = Some 1 /\
  name_safe (VStr "foo") = true /\ name_safe foo_spec = true /\
  outcome r = Normal tt /\
  occurrences "foo" (_channels (after r)) = 1.
Proof.
  intros r.
  assert (_connection watched = Some 1) as Hc by reflexivity.
  destruct (concurrent_calls_settle ToString_plain JSON_stringify_small (VStr "foo")
              foo_spec (VFun 1) (VFun 2) VNull true watched 1 Hc eq_refl eq_refl
              eq_refl eq_refl)
    as (H & _).
  destruct (H (not_elem_of_nil _)) as (s1 & s2 & Ho & Ha & _ & H2 & _).
  split; [exact Hc|]. split; [reflexivity|]. split; [reflexivity|].
  split; [exact Ho|].
  fold r in Ha. rewrite Ha. exact H2.
Defined.

Lemma command_failure_changes_nothing_witness :
  let r := complete JSON_stringify_small
             (listen ToString_plain JSON_stringify_small foo_spec (VFun 1))
             (VError "bar") watched in
  _connection watched = Some 1 /\
  truthy (VError "bar") = true /\
  after r = watched /\
  trace r = [Query 1 (LISTEN "foo") None (KListen "foo" (VFun 9) (VFun 1));
             Call 1 [VError "bar"]].
Proof.
  intros r.
  destruct (command_failure_changes_nothing ToString_plain JSON_stringify_small
              foo_spec (VFun 1) (VError "bar") watched 1 eq_refl eq_refl)
    as (H & _ & _).
  destruct (H (not_elem_of_nil _)) as (Ha & Ht).
  split; [reflexivity|]. split; [reflexivity|]. split; [exact Ha|exact Ht].
Defined.

Lemma decode_failure_delivers_then_throws_witness :
  let r := connectionOnNotification JSON_parse_small (mkNotification "foo" "hello")
             connected in
  JSON_parse_small "hello" = None /\
  trace r = [Emitted "foo" [VStr "hello"]] /\
  outcome r = Throw SyntaxError.
Proof.
  intros r.
  destruct (decode_failure_delivers_then_throws JSON_parse_small
              (mkNotification "foo" "hello") connected eq_refl)
    as (Ht & _ & _ & Ho).
  split; [reflexivity|]. split; [exact Ht|exact (Ho eq_refl)].
Defined.



Lemma listen_unlisten_twice_four_commands_witness :
  let r := listen_unlisten_twice ToString_plain JSON_stringify_small foo_spec (VFun 1)
             (VFun 2) (VFun 3) (VFun 4) VNull connected in
  _connection connected = Some 1 /\
  name_safe foo_spec = true /\
  _channels (after r) = [] /\
  commands (trace r)
  = [(LISTEN "foo", None); (UNLISTEN "foo", None);
     (LISTEN "foo", None); (UNLISTEN "foo", None)].
Proof.
  intros r.
  destruct (listen_unlisten_twice_four_commands ToString_plain JSON_stringify_small
              foo_spec (VFun 1) (VFun 2) (VFun 3) (VFun 4) VNull connected 1 eq_refl
              eq_refl (not_elem_of_nil _) eq_refl) as (_ & _ & He & _ & _ & Hcmd).
  split; [reflexivity|]. split; [reflexivity|]. split; [exact (He eq_refl)|].
  apply Hcmd; [reflexivity|reflexivity|discriminate|discriminate].
Defined.

(** Counterexample to C6 as stated: on a connected instance with an empty
    registry the four calls for ['foo'] send four commands, not two. *)
Lemma four_commands_not_two :
  let r := listen_unlisten_twice ToString_plain JSON_stringify_small (VStr "foo")
             VUndefined VUndefined VUndefined VUndefined VNull connected in
  _channels (after r) = [] /\
  commands (trace r)
  = [(LISTEN "foo", None); (UNLISTEN "foo", None);
     (LISTEN "foo", None); (UNLISTEN "foo", None)] /\
  length (commands (trace r)) = 4 /\
  length (commands (trace r)) <> 2.
Proof.
  cbv zeta. split; [reflexivity|]. split; [reflexivity|].
  split; [reflexivity|discriminate].
Qed.

Lemma not_connected_reported_witness :
  _connection fresh = None /\
  trace (listen ToString_plain JSON_stringify_small (VStr "foo") (VFun 1) fresh)
  = [Call 1 [not_connected]] /\
  trace (unlisten ToString_plain JSON_stringify_small (VStr "foo") VUndefined fresh)
  = [Emitted "error" [not_connected]] /\
  after (emit JSON_stringify_small (VStr "foo") VNull fresh) = fresh.
Proof.
  destruct (not_connected_reported ToString_plain JSON_stringify_small
              (VStr "foo") (VFun 1) (VStr "foo") VNull fresh eq_refl)
    as ((_ & _ & Hl) & _ & He).
  destruct (not_connected_reported ToString_plain JSON_stringify_small
              (VStr "foo") VUndefined (VStr "foo") VNull fresh eq_refl)
    as (_ & (_ & _ & Hu) & _).
  destruct (He eq_refl) as (Ha & _).
  split; [reflexivity|]. split; [exact Hl|]. split; [exact Hu|exact Ha].
Defined.

Lemma emit_notifies_once_witness :
  _connection connected = Some 1 /\
  trace (emit JSON_stringify_small (VStr "foo") (VBool true) connected)
  = [Query 1 pg_notify (Some [VStr "foo"; VStr "true"]) KEmit] /\
  trace (resume JSON_stringify_small KEmit (VError "bar") guarded)
  = [Emitted "error" [VError "bar"]; Call 7 [VError "bar"]] /\
  trace (resume JSON_stringify_small KEmit VNull guarded) = [].
Proof.
  destruct (emit_notifies_once JSON_stringify_small (VStr "foo") (VBool true)
              (VError "bar") VNull connected guarded 1 eq_refl eq_refl eq_refl
              eq_refl) as (_ & _ & Ht & _ & (Hf & _) & (Hs & _)).
  split; [reflexivity|]. split; [exact Ht|]. split; [exact Hf|exact Hs].
Defined.

(** ** The repository's tests, replayed *)

Example listen_registers_coerced_null :
  let r := complete JSON_stringify_small
             (listen ToString_plain JSON_stringify_small VNull (VFun 1)) VNull
             connected in
  _channels (after r) = ["null"] /\ listenerCount "null" (after r) = 0 /\
  trace r = [Query 1 (LISTEN "null") None (KListen "null" VNull (VFun 1));
             Call 1 [VNull; VStr "null"]].
Proof. cbv zeta. repeat split; reflexivity. Qed.

Example listen_database_error :
  let r := complete JSON_stringify_small
             (listen ToString_plain JSON_stringify_small (VStr "foo") (VFun 1))
             (VError "bar") connected in
  _channels (after r) = [] /\
  trace r = [Query 1 (LISTEN "foo") None (KListen "foo" VNull (VFun 1));
             Call 1 [VError "bar"]].
Proof. cbv zeta. split; reflexivity. Qed.

Example unlisten_unknown_channel_removes_listeners :
  let this := after (on JSON_stringify_small "bar" (VFun 5) connected) in
  let r := unlisten ToString_plain JSON_stringify_small
             (VObj [("channel", VStr "bar"); ("removeListeners", VBool true)])
             (VFun 2) this in
  listenerCount "bar" this = 1 /\ listenerCount "bar" (after r) = 0 /\
  trace r = [Call 2 [VNull; VStr "bar"]].
Proof. cbv zeta. repeat split; reflexivity. Qed.

Example emit_error_without_connection :
  let this := after (on JSON_stringify_small "error" (VFun 7) fresh) in
  trace (emit JSON_stringify_small (VStr "error") (VError "foo") this)
  = [Emitted "error" [VError "foo"]; Call 7 [VError "foo"]].
Proof. reflexivity. Qed.

Example close_resets_the_instance :
  let r := close JSON_stringify_small guarded in
  _connection (after r) = None /\ _done (after r) = VNull /\
  listenerCount "error" guarded = 1 /\ listenerCount "error" (after r) = 0 /\
  trace r = [ConnOff 1 OnError; ConnOff 1 OnNotification].
Proof. cbv zeta. repeat split; reflexivity. Qed.

Example notification_is_routed_decoded :
  let this := after (on JSON_stringify_small "foo" (VFun 9) connected) in
  let r := connectionOnNotification JSON_parse_small (mkNotification "foo" "true") this in
  outcome r = Normal tt /\
  trace r = [Emitted "foo" [VBool true]; Call 9 [VBool true]].
Proof. cbv zeta. split; reflexivity. Qed.

(** ** Runs with listeners of ['newListener'] and ['removeListener'] *)

(** Registering a listener of ['removeListener'] while ['newListener'] has
    one is itself announced. *)
Example on_is_announced :
  let this := after (on JSON_stringify_small "newListener" (VFun 6) connected) in
  trace (on JSON_stringify_small "newListener" (VFun 6) connected) = [] /\
  trace (on JSON_stringify_small "removeListener" (VFun 5) this)
  = [Query 1 pg_notify
       (Some [VStr "newListener"; JSON_stringify_small (VStr "removeListener")]) KEmit] /\
  listeners "newListener" watched = [6] /\ listeners "removeListener" watched = [5].
Proof. cbv zeta. repeat split; reflexivity. Qed.

(** A settled [listen] that attaches a listener sends LISTEN and then the
    announcement. *)
Example listen_announces_the_listener :
  let r := complete JSON_stringify_small
             (listen ToString_plain JSON_stringify_small foo_spec (VFun 1)) VNull
             watched in
  trace r
  = [Query 1 (LISTEN "foo") None (KListen "foo" (VFun 9) (VFun 1));
     Query 1 pg_notify
       (Some [VStr "newListener"; JSON_stringify_small (VStr "foo")]) KEmit;
     Call 1 [VNull; VStr "foo"]] /\
  listeners "foo" (after r) = [9] /\ _channels (after r) = ["foo"].
Proof. cbv zeta. repeat split; reflexivity. Qed.

(** [unlisten] with [removeListeners] announces each listener it removes,
    last one first. *)
Example unlisten_announces_each_removal :
  let this := after (on JSON_stringify_small "bar" (VFun 4)
                       (after (on JSON_stringify_small "bar" (VFun 3) watched))) in
  let r := unlisten ToString_plain JSON_stringify_small
             (VObj [("channel", VStr "bar"); ("removeListeners", VBool true)])
             (VFun 2) this in
  listeners "bar" this = [3; 4] /\
  trace r
  = [Query 1 pg_notify
       (Some [VStr "removeListener"; JSON_stringify_small (VStr "bar")]) KEmit;
     Query 1 pg_notify
       (Some [VStr "removeListener"; JSON_stringify_small (VStr "bar")]) KEmit;
     Call 2 [VNull; VStr "bar"]] /\
  listeners "bar" (after r) = [] /\
  listeners "removeListener" (after r) = [5].
Proof. cbv zeta. repeat split; reflexivity. Qed.

(** [close] announces the removal of every listener but the last one of
    ['removeListener'], taking the events in the order of the table's own
    keys: array indices first, ascending, then the names as created. *)
Example close_announces_removals :
  let this := after (on JSON_stringify_small "2" (VFun 4)
                       (after (on JSON_stringify_small "foo" (VFun 3)
                                 (after (on JSON_stringify_small "10" (VFun 2)
                                           watched))))) in
  let r := close JSON_stringify_small this in
  outcome r = Normal tt /\
  commands (trace r)
  = [(pg_notify, Some [VStr "removeListener"; JSON_stringify_small (VStr "2")]);
     (pg_notify, Some [VStr "removeListener"; JSON_stringify_small (VStr "10")]);
     (pg_notify, Some [VStr "removeListener"; JSON_stringify_small (VStr "newListener")]);
     (pg_notify, Some [VStr "removeListener"; JSON_stringify_small (VStr "foo")])] /\
  _events (after r) = [] /\ _connection (after r) = None.
Proof. cbv zeta. repeat split; reflexivity. Qed.

(** The answer to a LISTEN landing after [close], once a listener of
    ['newListener'] has been registered again: the channel is registered,
    then the announcement throws the not-connected error and the callback
    is not applied. *)
Example late_answer_throws :
  let this := after (on JSON_stringify_small "newListener" (VFun 6)
                       (after (close JSON_stringify_small connected))) in
  let r := resume JSON_stringify_small (KListen "foo" (VFun 9) (VFun 1)) VNull this in
  outcome r = Throw not_connected /\
  trace r = [Emitted "error" [not_connected]] /\
  _channels (after r) = ["foo"] /\ listeners "foo" (after r) = [].
Proof. cbv zeta. repeat split; reflexivity. Qed.

(** ** The further properties on concrete runs *)

Lemma external_client_never_released_witness :
  let ops := [OListen foo_spec (VFun 1); OAnswer (KListen "foo" (VFun 9) (VFun 1)) VNull;
              OConnect (VFun 2); OEmit (VStr "foo") VNull] in
  let this := exec ToString_plain JSON_stringify_small JSON_parse_small ops
                (after (PgEe_new (inl 1))) in
  _channels this = ["foo"] /\ _done this = VNull /\
  calls (trace (close JSON_stringify_small this)) = [].
Proof.
  intros ops this.
  destruct (external_client_never_released ToString_plain JSON_stringify_small
              JSON_parse_small 1 ops eq_refl) as (Hd & Hc).
  split; [reflexivity|]. split; [exact Hd|exact Hc].
Defined.

Lemma unlisten_unknown_channel_witness :
  let this := after (on JSON_stringify_small "bar" (VFun 3) watched) in
  let u := VObj [("channel", VStr "bar"); ("removeListeners", VBool true)] in
  let r := unlisten ToString_plain JSON_stringify_small u (VFun 2) this in
  _connection this = Some 1 /\
  name_safe u = true /\
  subscriptions (trace r) = [] /\
  trace r
  = [Query 1 pg_notify
       (Some [VStr "removeListener"; JSON_stringify_small (VStr "bar")]) KEmit;
     Call 2 [VNull; VStr "bar"]] /\
  listeners "bar" (after r) = [].
Proof.
  intros this u r.
  assert (_connection this = Some 1) as Hc by reflexivity.
  destruct (unlisten_unknown_channel ToString_plain JSON_stringify_small u (VFun 2)
              this 1 Hc eq_refl (not_elem_of_nil _))
    as (_ & Hcmd & Ht & _ & _ & _ & Hl).
  split; [exact Hc|]. split; [reflexivity|]. split; [exact Hcmd|]. split; [exact Ht|].
  exact (proj1 (Hl eq_refl)).
Defined.

Lemma listen_attaches_one_listener_witness :
  let r := complete JSON_stringify_small
             (listen ToString_plain JSON_stringify_small foo_spec (VFun 1)) VNull
             watched in
  _connection watched = Some 1 /\
  "foo" ∈ _channels (after r) /\
  listeners "foo" (after r) = [9].
Proof.
  intros r.
  destruct (listen_attaches_one_listener ToString_plain JSON_stringify_small foo_spec
              (VFun 1) VNull watched 1 eq_refl eq_refl) as (_ & Hin & Hl & _).
  split; [reflexivity|]. split; [exact Hin|exact Hl].
Defined.

Lemma unlisten_settles_witness :
  let this := after (complete JSON_stringify_small
                       (listen ToString_plain JSON_stringify_small foo_spec (VFun 1))
                       VNull watched) in
  let r := complete JSON_stringify_small
             (unlisten ToString_plain JSON_stringify_small foo_spec (VFun 2)) VNull
             this in
  NoDup (_channels this) /\
  ("foo" ∉ _channels (after r)) /\
  listeners "foo" (after r) = [].
Proof.
  intros this r.
  assert (NoDup (_channels this)) as Hnd by apply NoDup_singleton.
  destruct (unlisten_settles ToString_plain JSON_stringify_small foo_spec (VFun 2)
              VNull this 1 eq_refl eq_refl Hnd) as (_ & Hgone & _ & _ & Hl & _).
  split; [exact Hnd|]. split; [exact Hgone|exact (Hl eq_refl)].
Defined.

Lemma connect_once_connected_witness :
  let r1 := connect_cb (VFun 1) VNull 3 (VFun 4) fresh in
  let r2 := connect (VFun 2) (after r1) in
  truthy VNull = false /\
  _connection (after r1) = Some 3 /\
  trace r2 = [Call 2 []].
Proof.
  intros r1 r2.
  destruct (connect_once_connected (VFun 1) (VFun 2) VNull (VFun 4) 3 fresh eq_refl)
    as (Hc & _ & _ & _ & _ & Ht).
  split; [reflexivity|]. split; [exact Hc|exact Ht].
Defined.

Lemma connect_failure_can_be_retried_witness :
  let r1 := connect_cb (VFun 1) (VError "foo") 3 VUndefined fresh in
  let r2 := connect (VFun 2) (after r1) in
  truthy (VError "foo") = true /\ _connection fresh = None /\
  after r1 = fresh /\
  trace r1 = [Call 1 [VError "foo"]] /\
  trace r2 = [PoolConnect (VStr "postgres://localhost/postgres") (VFun 2)].
Proof.
  intros r1 r2.
  destruct (connect_failure_can_be_retried (VFun 1) (VFun 2) (VError "foo")
              VUndefined 3 fresh eq_refl eq_refl) as (Ha & Ht1 & Ht2 & _).
  split; [reflexivity|]. split; [reflexivity|]. split; [exact Ha|].
  split; [exact Ht1|exact Ht2].
Defined.

Lemma pooled_connection_released_on_close_witness :
  let s := after (connect_cb (VFun 1) VNull 3 (VFun 4) fresh) in
  truthy VNull = false /\
  trace (close JSON_stringify_small s)
  = [Call 4 []; ConnOff 3 OnError; ConnOff 3 OnNotification] /\
  calls (trace (close JSON_stringify_small s)) = [(4, [])] /\
  _connection (after (close JSON_stringify_small s)) = None.
Proof.
  intros s.
  destruct (pooled_connection_released_on_close JSON_stringify_small (VFun 1) VNull
              4 3 fresh eq_refl)
    as (_ & Hcalls & _ & Ht & Ha).
  split; [reflexivity|]. split; [exact (Ht eq_refl)|]. split; [exact Hcalls|].
  fold s in Ha. by rewrite Ha.
Defined.

Lemma close_is_final_witness :
  let s := after (close JSON_stringify_small guarded) in
  wf guarded /\
  _connection s = None /\
  close JSON_stringify_small s = mkRun (Normal tt) s [] /\
  trace (listen ToString_plain JSON_stringify_small (VStr "foo") (VFun 1) s)
  = [Call 1 [not_connected]].
Proof.
  intros s.
  assert (wf guarded) as Hwf by (intros _; discriminate).
  destruct (close_is_final ToString_plain JSON_stringify_small (VStr "foo") (VFun 1)
              (VStr "foo") VNull guarded Hwf) as (_ & Hc & Hcl & Hl & _).
  split; [exact Hwf|]. split; [exact Hc|]. split; [exact Hcl|exact Hl].
Defined.

Lemma notification_routed_in_order_witness :
  let this := after (on JSON_stringify_small "foo" (VFun 8)
                       (after (on JSON_stringify_small "foo" (VFun 9) fresh))) in
  let r := connectionOnNotification JSON_parse_small (mkNotification "foo" "true") this in
  JSON_parse_small "true" = Some (VBool true) /\
  calls (trace r) = [(9, [VBool true]); (8, [VBool true])] /\
  outcome r = Normal tt.
Proof.
  intros this r.
  destruct (notification_routed_in_order JSON_parse_small
              (mkNotification "foo" "true") (VBool true) this eq_refl)
    as (_ & _ & _ & Hcalls & _ & Ho).
  split; [reflexivity|]. split; [exact Hcalls|]. apply Ho. discriminate.
Defined.

Lemma emit_notification_round_trip_witness :
  let this' := after (on JSON_stringify_small "foo" (VFun 9) connected) in
  let r := emit JSON_stringify_small (VStr "foo") (VBool true) connected in
  let r' := connectionOnNotification JSON_parse_small (mkNotification "foo" "true") this' in
  JSON_stringify_small (VBool true) = VStr "true" /\
  JSON_parse_small "true" = Some (VBool true) /\
  commands (trace r) = [(pg_notify, Some [VStr "foo"; VStr "true"])] /\
  calls (trace r') = [(9, [VBool true])].
Proof.
  intros this' r r'.
  assert ("foo" <> "error") as Hne by discriminate.
  destruct (emit_notification_round_trip JSON_stringify_small JSON_parse_small
              "foo" "true" (VBool true) connected this' 1 eq_refl Hne eq_refl eq_refl)
    as (Hcmd & _ & _ & Hcalls & _).
  split; [reflexivity|]. split; [reflexivity|]. split; [exact Hcmd|exact Hcalls].
Defined.

Lemma callback_replaces_events_witness :
  is_function (VFun 1) = true /\
  events_fired (trace (listen ToString_plain JSON_stringify_small (VStr "foo") (VFun 1)
                         fresh)) = [] /\
  events_fired (trace (resume JSON_stringify_small (KListen "foo" (VFun 9) (VFun 1))
                         VNull watched)) = [] /\
  events_fired (trace (resume JSON_stringify_small (KListen "foo" VNull (VFun 1))
                         (VError "bar") guarded)) = [].
Proof.
  destruct (callback_replaces_events ToString_plain JSON_stringify_small (VFun 1)
              eq_refl fresh) as (Hl & _).
  destruct (callback_replaces_events ToString_plain JSON_stringify_small (VFun 1)
              eq_refl watched) as (_ & _ & _ & Hw & _).
  destruct (callback_replaces_events ToString_plain JSON_stringify_small (VFun 1)
              eq_refl guarded) as (_ & _ & _ & Hr & _).
  split; [reflexivity|].
  split; [exact (proj2 (Hl (VStr "foo") (or_introl eq_refl)))|].
  split.
  - refine (proj1 (proj2 (Hw "foo" (VFun 9) false VNull _ (or_introl eq_refl) _))).
    left. discriminate.
  - refine (proj1 (proj2 (Hr "foo" VNull false (VError "bar") _ (or_introl eq_refl) _))).
    right. left. reflexivity.
Defined.

Lemma failed_listen_can_be_retried_witness :
  let r1 := complete JSON_stringify_small
              (listen ToString_plain JSON_stringify_small (VStr "foo") (VFun 1))
              (VError "bar") connected in
  let r2 := complete JSON_stringify_small
              (listen ToString_plain JSON_stringify_small (VStr "foo") (VFun 2))
              VNull (after r1) in
  _connection connected = Some 1 /\
  name_safe (VStr "foo") = true /\
  after r1 = connected /\
  subscriptions (trace r2) = [(LISTEN "foo", None)] /\
  _channels (after r2) = ["foo"].
Proof.
  intros r1 r2.
  destruct (failed_listen_can_be_retried ToString_plain JSON_stringify_small
              (VStr "foo") (VFun 1) (VFun 2) (VError "bar") VNull connected 1 eq_refl
              eq_refl (not_elem_of_nil _) eq_refl eq_refl)
    as (Ha & _ & Hcmd & _ & Hch & _).
  split; [reflexivity|]. split; [reflexivity|]. split; [exact Ha|].
  split; [exact Hcmd|exact Hch].
Defined.


Lemma coerced_name_round_trip_witness :
  let r1 := complete JSON_stringify_small
              (listen ToString_plain JSON_stringify_small VNull (VFun 1)) VNull
              connected in
  let r2 := complete JSON_stringify_small
              (unlisten ToString_plain JSON_stringify_small (VStr "null") (VFun 2))
              VNull (after r1) in
  channel_name ToString_plain (VStr "null") = channel_name ToString_plain VNull /\
  name_safe VNull = true /\ name_safe (VStr "null") = true /\
  subscriptions (trace r1 ++ trace r2)
  = [(LISTEN "null", None); (UNLISTEN "null", None)] /\
  _channels (after r2) = [].
Proof.
  intros r1 r2.
  destruct (coerced_name_round_trip ToString_plain JSON_stringify_small VNull
              (VStr "null") (VFun 1) (VFun 2) VNull connected 1 eq_refl eq_refl
              eq_refl (not_elem_of_nil _) eq_refl eq_refl)
    as (_ & _ & _ & _ & Hcmd & _ & _ & Hch).
  split; [reflexivity|]. split; [reflexivity|]. split; [reflexivity|].
  split; [exact Hcmd|exact Hch].
Defined.

Lemma answer_after_close_still_lands_witness :
  let s := after (close JSON_stringify_small guarded) in
  let r := resume JSON_stringify_small (KListen "foo" (VFun 9) (VFun 1)) VNull s in
  wf guarded /\
  _connection (after r) = None /\
  _channels (after r) = ["foo"] /\
  listeners "foo" (after r) = [9].
Proof.
  intros s r.
  assert (wf guarded) as Hwf by (intros _; discriminate).
  assert (_connection guarded <> None) as Hc by discriminate.
  destruct (answer_after_close_still_lands JSON_stringify_small "foo" (VFun 9) (VFun 1)
              VNull guarded Hwf Hc eq_refl) as (_ & Hcn & Hch & Hl & _).
  split; [exact Hwf|]. split; [exact Hcn|]. split; [exact Hch|exact Hl].
Defined.

Lemma registration_is_announced_witness :
  let this := after (complete JSON_stringify_small
                       (listen ToString_plain JSON_stringify_small (VStr "foo")
                          (VFun 1)) VNull watched) in
  let r := listen ToString_plain JSON_stringify_small foo_spec (VFun 2) this in
  _connection this = Some 1 /\
  name_safe foo_spec = true /\
  listeners "newListener" this = [6] /\
  commands (trace r)
  = [(pg_notify, Some [VStr "newListener"; JSON_stringify_small (VStr "foo")])] /\
  listeners "foo" (after r) = [9].
Proof.
  intros this r.
  assert (channel_name ToString_plain foo_spec ∈ _channels this) as Hin
    by apply list_elem_of_singleton, eq_refl.
  assert (listeners "newListener" this <> []) as Hl by discriminate.
  destruct (registration_is_announced ToString_plain JSON_stringify_small foo_spec
              (VFun 2) 9 this 1 eq_refl eq_refl Hin eq_refl Hl)
    as (_ & _ & Hcmd & _ & Hls).
  split; [reflexivity|]. split; [reflexivity|]. split; [reflexivity|].
  split; [exact Hcmd|exact Hls].
Defined.

Lemma late_answer_announcement_fails_witness :
  let this := after (on JSON_stringify_small "newListener" (VFun 6)
                       (after (close JSON_stringify_small connected))) in
  let r := resume JSON_stringify_small (KListen "foo" (VFun 9) (VFun 1)) VNull this in
  _connection this = None /\
  listeners "newListener" this = [6] /\
  "foo" ∈ _channels (after r) /\
  outcome r = Throw not_connected /\
  trace r = [Emitted "error" [not_connected]].
Proof.
  intros this r.
  assert (listeners "newListener" this <> []) as Hl by discriminate.
  destruct (late_answer_announcement_fails JSON_stringify_small "foo" 9 (VFun 1) VNull
              this eq_refl eq_refl Hl) as (Hin & _ & Hthrow & _).
  destruct (Hthrow eq_refl) as (Ho & Ht & _).
  split; [reflexivity|]. split; [reflexivity|]. split; [exact Hin|].
  split; [exact Ho|exact Ht].
Defined.
